(** * Sensor IoT system: generic linked list [ListaSensor<T>], the two
    sensor kinds, the [GestorSensores] registry and the serial line
    protocol ([leerLineaSerial], [procesarLinea]).

    Two layers model [ListaSensor<T>]:
    - [Lista]: the list seen through its contents, the node values in
      chain order, together with the separate [tamaño] counter; the
      sensors and the registry are built on it;
    - [Heap]: the pointer level, nodes stored in a heap of locations,
      used for the claims about aliasing, copies and the counter.

    Modelling conventions.
    - Everything printed on [std::cout] is recorded as a message of type
      [msg], in order; functions return their result with the messages
      they print (the writer type [W]).
    - C++ [int] is modelled as [Z]: signed overflow is undefined behaviour
      in C++ and is not modelled.
    - C++ [float] is modelled as an exact rational [Q]: the rounding to
      binary32, infinities and NaN are not modelled.  [atof] is modelled
      on the decimal form of [strtod] only. *)

From Stdlib Require Import QArith.
From stdpp Require Import base list gmap strings.
From Stdlib Require Import Ascii.

Open Scope Z_scope.

(** ** Output messages *)

Inductive valor := VInt (z : Z) | VFloat (q : Q).

Inductive msg :=
(* ListaSensor<T> *)
| LogListaCreada                    (* "[LOG] Lista genérica creada" *)
| LogPrimerNodo (v : valor)         (* "[LOG] Primer nodo insertado: v" *)
| LogNodoAlFinal (v : valor)        (* "[LOG] Nodo insertado al final: v" *)
| AdvListaVacia                     (* "[ADVERTENCIA] Lista vacía, retornando 0." *)
| ErrSinElementos                   (* "[ERRROR] No hay elementos para eliminar." *)
| LogMinimoEliminado (v : valor)    (* "[LOG] Valor mínimo eliminado: v" *)
(* SensorBase, SensorTemperatura, SensorPresion *)
| LogSensorBaseCreado (id : string) (* "[SensorBase] Sensor 'id' creado" *)
| LogTempInicializado (id : string) (* "[SensorTemp] Sensor de temperatura 'id' inicializado." *)
| LogPresInicializado (id : string) (* "[SensorPresion] Sensor de presión 'id' inicializado." *)
| LogTempLectura (id : string) (v : valor)  (* "[SensorTemp id] Lectura agregada: v°C" *)
| LogPresLectura (id : string) (v : valor)  (* "[SensorPresion id] Lectura agregada: v hPa" *)
| LogProcesando (id : string)       (* "-> Procesando Sensor id..." *)
| TempSinLecturas                   (* "[SensorTemp] No hay lecturas para procesar." *)
| PresSinLecturas                   (* "[SensorPresion] No hay lecturas para procesar." *)
| TempMinimoEliminado (v : valor)   (* "[Sensor Temp] Lectura más baja (v°C) eliminada." *)
| TempPromedio (n : Z) (v : valor)  (* "[Sensor Temp] Promedio calculado sobre n lectura(s): v°C." *)
| PresPromedio (n : Z) (v : valor)  (* "[Sensor Presion] Promedio calculado sobre n lectura(s): v hPa." *)
(* GestorSensores *)
| GestorPrimerSensor (id : string)  (* "[Gestor] Primer sensor registrado: id" *)
| GestorSensorAgregado (id : string) (* "[Gestor] Sensor agregado: id" *)
(* procesarLinea *)
| LineaMalformada                   (* "[Advertencia] Línea malformada recibida." *)
| SerialNuevoTemp (id : string)     (* "[Serial] Nuevo sensor de temperatura: id" *)
| SerialNuevoPres (id : string)     (* "[Serial] Nuevo sensor de presión: id" *)
| TipoDesconocido (tipo : string).  (* "[Error] Tipo de sensor desconocido: tipo" *)

(** A computation that prints: its result and the messages, in order. *)
Definition W (A : Type) : Type := (A * list msg)%type.

#[global] Instance W_ret : MRet W := λ A x, (x, []).
#[global] Instance W_bind : MBind W := λ A B f m,
  let '(a, l1) := m in let '(b, l2) := f a in (b, l1 ++ l2).

Definition emitir (m : msg) : W unit := (tt, [m]).

(** ** [int] and [long] (32 and 64 bits, two's complement) *)
Definition INT_MIN : Z := -2147483648.
Definition INT_MAX : Z := 2147483647.
Definition LONG_MIN : Z := -9223372036854775808.
Definition LONG_MAX : Z := 9223372036854775807.

Definition en_int (z : Z) : Prop := INT_MIN ≤ z ≤ INT_MAX.

(** The [int] that holds a computation whose exact result is [z]: [z]
    reduced modulo 2^32 into [INT_MIN..INT_MAX].  A conversion to [int]
    ([(int) strtol(...)]) does this under gcc.  For [+=] on [int] an exact
    result outside the range is undefined behaviour; [a_int] is the
    two's-complement wrap the compiled code shows in practice, and the
    theorems about a sum assume it stays in range. *)
Definition a_int (z : Z) : Z := (z - INT_MIN) mod 4294967296 + INT_MIN.

(** ** The element type [T] of [ListaSensor<T>]

    The template uses [static_cast<T>(0)], [+=], [<], division by the
    [int] counter and [operator<<]. *)
Class Numero (T : Type) := {
  cero : T;
  sumar : T → T → T;
  menor : T → T → bool;
  dividir : T → Z → T;
  mostrar : T → valor
}.

(** [int]: [suma += x] is computed in [int] ([a_int]); division
    truncates toward zero, which is [Z.quot]. *)
#[global] Instance numero_int : Numero Z := {|
  cero := 0; sumar := λ a b, a_int (a + b); menor := Z.ltb; dividir := Z.quot; mostrar := VInt
|}.

Definition Qltb (x y : Q) : bool := Z.ltb (Qnum x * QDen y) (Qnum y * QDen x).

(** [float]: [suma / tamaño] converts the counter and divides. *)
#[global] Instance numero_float : Numero Q := {|
  cero := 0 # 1; sumar := Qplus; menor := Qltb;
  dividir := λ q n, Qdiv q (inject_Z n); mostrar := VFloat
|}.

(** ** [ListaSensor<T>] through its contents *)
Module Lista.
Section lista.
Context {T : Type} `{Numero T}.

(** [nodos]: the values of the chain from [cabeza], in order;
    [tamano]: the [tamaño] field. *)
Record ListaSensor := mkLista { nodos : list T; tamano : Z }.

(** [ListaSensor()] *)
Definition crear : W ListaSensor :=
  emitir LogListaCreada ;; mret (mkLista [] 0).

Definition insertarAlFinal (L : ListaSensor) (valor : T) : W ListaSensor :=
  match nodos L with
  | [] => emitir (LogPrimerNodo (mostrar valor)) ;;
          mret (mkLista [valor] (tamano L + 1))
  | _ :: _ => emitir (LogNodoAlFinal (mostrar valor)) ;;
          mret (mkLista (nodos L ++ [valor]) (tamano L + 1))
  end.

Definition calcularPromedio (L : ListaSensor) : W T :=
  match nodos L with
  | [] => emitir AdvListaVacia ;; mret cero
  | _ :: _ => mret (dividir (fold_left sumar (nodos L) cero) (tamano L))
  end.

(** The scan of [eliminarMinimo]: [minimo] and its position [imin] are
    replaced only when [actual->dato < minNodo->dato]. *)
Fixpoint buscarMinimo (xs : list T) (i : nat) (minimo : T) (imin : nat) : T * nat :=
  match xs with
  | [] => (minimo, imin)
  | x :: r => if menor x minimo then buscarMinimo r (S i) x i
              else buscarMinimo r (S i) minimo imin
  end.

Definition eliminarMinimo (L : ListaSensor) : W (T * ListaSensor) :=
  match nodos L with
  | [] => emitir ErrSinElementos ;; mret (cero, L)
  | x :: _ =>
      let '(valorMin, imin) := buscarMinimo (nodos L) 0 x 0 in
      emitir (LogMinimoEliminado (mostrar valorMin)) ;;
      mret (valorMin, mkLista (delete imin (nodos L)) (tamano L - 1))
  end.

Definition obtenerTamano (L : ListaSensor) : Z := tamano L.

(** [cabeza == nullptr] *)
Definition estaVacia (L : ListaSensor) : bool :=
  match nodos L with [] => true | _ :: _ => false end.

End lista.
Arguments ListaSensor : clear implicits.
End Lista.
Import Lista.

(** ** [atoi] and [atof] (C library, "C" locale) *)
Module Conv.

(** [isspace] *)
Definition es_espacio (c : ascii) : bool :=
  match nat_of_ascii c with 32 | 9 | 10 | 11 | 12 | 13 => true | _ => false end%nat.

Definition es_digito (c : ascii) : bool :=
  (48 <=? nat_of_ascii c)%nat && (nat_of_ascii c <=? 57)%nat.

Definition valor_digito (c : ascii) : Z := Z.of_nat (nat_of_ascii c) - 48.

Fixpoint saltar_espacios (s : list ascii) : list ascii :=
  match s with
  | c :: r => if es_espacio c then saltar_espacios r else s
  | [] => []
  end.

(** Optional sign: the factor and the rest. *)
Definition signo (s : list ascii) : Z * list ascii :=
  match s with
  | c :: r => if Ascii.eqb c "-"%char then (-1, r)
              else if Ascii.eqb c "+"%char then (1, r) else (1, s)
  | [] => (1, [])
  end.

(** A run of decimal digits: its value (accumulated onto [acc]), how many
    digits, and the rest. *)
Fixpoint leer_digitos (s : list ascii) (acc : Z) (n : nat) : Z * nat * list ascii :=
  match s with
  | c :: r => if es_digito c then leer_digitos r (10 * acc + valor_digito c) (S n)
              else (acc, n, s)
  | [] => (acc, n, [])
  end.

(** [strtol(s, NULL, 10)]: optional white space, optional sign, decimal
    digits; [0] when no digit follows; a value beyond the range of [long]
    gives [LONG_MIN] or [LONG_MAX]. *)
Definition strtol (s : string) : Z :=
  let '(sg, r) := signo (saltar_espacios (String.list_ascii_of_string s)) in
  let '(v, _, _) := leer_digitos r 0 0 in Z.max LONG_MIN (Z.min LONG_MAX (sg * v)).

(** glibc's [atoi]: [(int) strtol(s, NULL, 10)]. *)
Definition atoi (s : string) : Z := a_int (strtol s).

(** Optional exponent [e[+|-]digits]; not consumed without a digit. *)
Definition exponente (s : list ascii) : Z :=
  match s with
  | c :: r =>
      if Ascii.eqb c "e"%char || Ascii.eqb c "E"%char then
        let '(sg, r') := signo r in
        let '(e, n, _) := leer_digitos r' 0 0 in
        if (0 <? n)%nat then sg * e else 0
      else 0
  | [] => 0
  end.

Definition escalar (m k : Z) : Q :=
  if 0 <=? k then Qmake (m * 10 ^ k) 1 else Qmake m (Z.to_pos (10 ^ (- k))).

(** [atof] on the decimal form: digits, optional ['.' digits], at least
    one digit in all, optional exponent; [0] when there is no number. *)
Definition atof (s : string) : Q :=
  let '(sg, r) := signo (saltar_espacios (String.list_ascii_of_string s)) in
  let '(ent, n1, r1) := leer_digitos r 0 0 in
  let '(frac, n2, r2) :=
    match r1 with
    | c :: r1' => if Ascii.eqb c "."%char then leer_digitos r1' ent 0 else (ent, 0%nat, r1)
    | [] => (ent, 0%nat, [])
    end in
  if (0 <? n1 + n2)%nat then escalar (sg * frac) (exponente r2 - Z.of_nat n2)
  else 0 # 1.

Definition minuscula (c : ascii) : ascii :=
  let n := nat_of_ascii c in
  if (65 <=? n)%nat && (n <=? 90)%nat then ascii_of_nat (n + 32) else c.

Fixpoint prefijo_ci (p s : list ascii) : bool :=
  match p, s with
  | [], _ => true
  | a :: p', c :: s' => Ascii.eqb a (minuscula c) && prefijo_ci p' s'
  | _ :: _, [] => false
  end.

(** No conversion by [strtod] (hence by [atof], and by [atoi]): after
    white space and sign there is no digit, no ['.' digit], and no
    [inf] or [nan] in any case. *)
Definition sin_conversion (s : string) : bool :=
  let r := (signo (saltar_espacios (String.list_ascii_of_string s))).2 in
  match r with
  | [] => true
  | c :: r' =>
      negb (es_digito c)
      && negb (Ascii.eqb c "."%char && match r' with d :: _ => es_digito d | [] => false end)
      && negb (prefijo_ci (String.list_ascii_of_string "inf") r)
      && negb (prefijo_ci (String.list_ascii_of_string "nan") r)
  end.

End Conv.

(** ** Sensors *)
Module Sensores.
Import Conv.

Inductive Sensor :=
| SensorTemperatura (nombre : string) (historial : ListaSensor Q)
| SensorPresion (nombre : string) (historial : ListaSensor Z).

Definition obtenerNombre (s : Sensor) : string :=
  match s with SensorTemperatura n _ | SensorPresion n _ => n end.

(** Construction order: [SensorBase(id)], member [historial], body.
    [SensorBase(id)] copies [id] with [strcpy] into [char nombre[50]]:
    the sensor's name is [id] when [id] has at most 49 bytes and no NUL.
    A longer [id] writes past [nombre] (undefined behaviour); the
    theorems about lines that create sensors assume [Protocolo.linea_c]. *)
Definition nuevoSensorTemperatura (id : string) : W Sensor :=
  emitir (LogSensorBaseCreado id) ;;
  h ← crear ;
  emitir (LogTempInicializado id) ;;
  mret (SensorTemperatura id h).

Definition nuevoSensorPresion (id : string) : W Sensor :=
  emitir (LogSensorBaseCreado id) ;;
  h ← crear ;
  emitir (LogPresInicializado id) ;;
  mret (SensorPresion id h).

Definition agregarLectura (s : Sensor) (v : string) : W Sensor :=
  match s with
  | SensorTemperatura n h =>
      let temp := atof v in
      h' ← insertarAlFinal h temp ;
      emitir (LogTempLectura n (VFloat temp)) ;;
      mret (SensorTemperatura n h')
  | SensorPresion n h =>
      let presion := atoi v in
      h' ← insertarAlFinal h presion ;
      emitir (LogPresLectura n (VInt presion)) ;;
      mret (SensorPresion n h')
  end.

Definition procesarLectura (s : Sensor) : W Sensor :=
  match s with
  | SensorTemperatura n h =>
      emitir (LogProcesando n) ;;
      if estaVacia h then emitir TempSinLecturas ;; mret s
      else if 1 <? obtenerTamano h then
        '(minimo, h') ← eliminarMinimo h ;
        emitir (TempMinimoEliminado (VFloat minimo)) ;;
        mret (SensorTemperatura n h')
      else
        promedio ← calcularPromedio h ;
        emitir (TempPromedio (obtenerTamano h) (VFloat promedio)) ;;
        mret s
  | SensorPresion n h =>
      emitir (LogProcesando n) ;;
      if estaVacia h then emitir PresSinLecturas ;; mret s
      else
        promedio ← calcularPromedio h ;
        emitir (PresPromedio (obtenerTamano h) (VInt promedio)) ;;
        mret s
  end.

End Sensores.
Import Sensores.

(** ** [GestorSensores]

    The [NodoSensor] chain is the list [sensores], in insertion order; a
    [SensorBase*] handed out by [buscarSensor] is a position in it. *)
Module Gestor.

Record GestorSensores := mkGestor { sensores : list Sensor; cantidad : Z }.

Definition gestor_vacio : GestorSensores := mkGestor [] 0.

Definition agregarSensor (g : GestorSensores) (sensor : Sensor) : W GestorSensores :=
  match sensores g with
  | [] => emitir (GestorPrimerSensor (obtenerNombre sensor))
  | _ :: _ => emitir (GestorSensorAgregado (obtenerNombre sensor))
  end ;;
  mret (mkGestor (sensores g ++ [sensor]) (cantidad g + 1)).

(** The loop of [buscarSensor]: [strcmp(actual->sensor->obtenerNombre(), id) == 0]. *)
Fixpoint buscar_desde (l : list Sensor) (id : string) (i : nat) : option nat :=
  match l with
  | [] => None
  | s :: r => if String.eqb (obtenerNombre s) id then Some i else buscar_desde r id (S i)
  end.

Definition buscarSensor (g : GestorSensores) (id : string) : option nat :=
  buscar_desde (sensores g) id 0.

(** [sensor->f()] on the sensor at position [i]. *)
Definition actualizarEn (g : GestorSensores) (i : nat) (f : Sensor → W Sensor)
  : W GestorSensores :=
  match sensores g !! i with
  | Some s => s' ← f s ; mret (mkGestor (<[i:=s']> (sensores g)) (cantidad g))
  | None => mret g
  end.

End Gestor.
Import Gestor.

(** ** The line protocol *)
Module Protocolo.

(** [strtok(_, ",")]: skip the delimiters, cut the token at the next one
    (which is consumed) or at the end of the string. *)
Fixpoint saltar_comas (s : list ascii) : list ascii :=
  match s with
  | c :: r => if Ascii.eqb c ","%char then saltar_comas r else s
  | [] => []
  end.

Fixpoint cortar_token (s : list ascii) : list ascii * list ascii :=
  match s with
  | [] => ([], [])
  | c :: r => if Ascii.eqb c ","%char then ([], r)
              else let '(t, r') := cortar_token r in (c :: t, r')
  end.

Definition strtok (s : list ascii) : option (string * list ascii) :=
  match saltar_comas s with
  | [] => None
  | s' => let '(t, r) := cortar_token s' in Some (String.string_of_list_ascii t, r)
  end.

(** The three calls [tipo], [id], [valor]; [None] when one is [nullptr]. *)
Definition campos (linea : string) : option (string * string * string) :=
  match strtok (String.list_ascii_of_string linea) with
  | None => None
  | Some (tipo, r1) =>
      match strtok r1 with
      | None => None
      | Some (id, r2) =>
          match strtok r2 with
          | None => None
          | Some (v, _) => Some (tipo, id, v)
          end
      end
  end.

(** A line the C code sees as this string: no NUL byte (a [char*] ends
    at the first one), and an [id] field of at most 49 bytes, so that
    [strcpy(nombre, id)] stays inside [char nombre[50]]. *)
Definition linea_c (linea : string) : bool :=
  forallb (λ c, negb (Ascii.eqb c "000"%char)) (String.list_ascii_of_string linea)
  && match campos linea with
     | Some (_, id, _) => (String.length id <? 50)%nat
     | None => true
     end.

(** [tipo[0]] *)
Definition primer_caracter (s : string) : option ascii :=
  match s with EmptyString => None | String c _ => Some c end.

(** Body of [procesarLinea] once the three fields are split. *)
Definition procesarCampos (tipo id v : string) (g : GestorSensores) : W GestorSensores :=
      match buscarSensor g id with
      | Some i => actualizarEn g i (λ s, agregarLectura s v)
      | None =>
          if bool_decide (primer_caracter tipo = Some "T"%char) then
            s ← nuevoSensorTemperatura id ;
            emitir (SerialNuevoTemp id) ;;
            g' ← agregarSensor g s ;
            actualizarEn g' (length (sensores g)) (λ s, agregarLectura s v)
          else if bool_decide (primer_caracter tipo = Some "P"%char) then
            s ← nuevoSensorPresion id ;
            emitir (SerialNuevoPres id) ;;
            g' ← agregarSensor g s ;
            actualizarEn g' (length (sensores g)) (λ s, agregarLectura s v)
          else emitir (TipoDesconocido tipo) ;; mret g
      end.

Definition procesarLinea (linea : string) (g : GestorSensores) : W GestorSensores :=
  match campos linea with
  | None => emitir LineaMalformada ;; mret g
  | Some (tipo, id, v) => procesarCampos tipo id v g
  end.

(** [leerLineaSerial]: the static [bufferInterno[0..posicion)] is
    [pendiente]; the input is the byte [read] returned, [None] when
    [read] returned no byte.  On a complete line, [bufferInterno[posicion]]
    is set to NUL and [strncpy(buffer, bufferInterno, maxLen)] copies up
    to the first NUL, at most [maxLen] characters. *)
Fixpoint hasta_nul (s : list ascii) : list ascii :=
  match s with
  | [] => []
  | c :: r => if Ascii.eqb c "000"%char then [] else c :: hasta_nul r
  end.

Definition strncpy (maxLen : nat) (s : list ascii) : string :=
  String.string_of_list_ascii (take maxLen (hasta_nul s)).

Definition es_fin_de_linea (c : ascii) : bool :=
  Ascii.eqb c "010"%char || Ascii.eqb c "013"%char.

Definition leerLineaSerial (maxLen : nat) (leido : option ascii) (pendiente : list ascii)
  : list ascii * option string :=
  match leido with
  | None => (pendiente, None)
  | Some c =>
      if es_fin_de_linea c then
        if (0 <? length pendiente)%nat then ([], Some (strncpy maxLen pendiente))
        else (pendiente, None)
      else if (length pendiente <? 255)%nat then (pendiente ++ [c], None)
      else (pendiente, None)
  end.

(** [main] calls [leerLineaSerial(serialFd, buffer, 256)]. *)
Definition leerLinea := leerLineaSerial 256.

End Protocolo.
Import Protocolo.

(** ** Drivers and the vocabulary of the statements *)
Module Uso.

(** Lines handed to [procesarLinea] one after another. *)
Definition alimentar (lineas : list string) (g : GestorSensores) : W GestorSensores :=
  foldl (λ acc l, acc ≫= procesarLinea l) (mret g) lineas.

(** [buscarSensor(id)->procesarLectura()] *)
Definition procesarSensor (id : string) (g : GestorSensores) : W GestorSensores :=
  match buscarSensor g id with
  | Some i => actualizarEn g i procesarLectura
  | None => mret g
  end.

(** The bytes of a stream fed to [leerLinea] one call at a time: the
    final pending buffer and the lines emitted, in order. *)
Fixpoint flujo (entradas : list (option ascii)) (pendiente : list ascii)
  : list ascii * list string :=
  match entradas with
  | [] => (pendiente, [])
  | e :: r =>
      let '(p', out) := leerLinea e pendiente in
      let '(pf, lineas) := flujo r p' in
      (pf, match out with Some l => l :: lineas | None => lineas end)
  end.

Section orden.
Context {T : Type} `{Numero T}.

(** [m] at position [i] is the smallest value of [xs] ([menor] finds no
    element below it) and every earlier element is strictly greater. *)
Definition minimo_primero (xs : list T) (m : T) (i : nat) : Prop :=
  xs !! i = Some m ∧
  (∀ y, y ∈ xs → menor y m = false) ∧
  (∀ j y, (j < i)%nat → xs !! j = Some y → menor m y = true).
End orden.

(** The order of [<] on the element type: irreflexive, transitive, and
    total up to ties. *)
Class OrdenEstricto (T : Type) `{Numero T} : Prop := {
  menor_irrefl : ∀ x, menor x x = false;
  menor_trans : ∀ x y z, menor x y = true → menor y z = true → menor x z = true;
  menor_comparable : ∀ x y z, menor x z = true → menor y z = false → menor x y = true
}.

(** A zero reading appended to the sensor's history. *)
Definition anadir_cero (s : Sensor) : Sensor :=
  match s with
  | SensorTemperatura n h => SensorTemperatura n (mkLista (nodos h ++ [0 # 1]) (tamano h + 1))
  | SensorPresion n h => SensorPresion n (mkLista (nodos h ++ [0]) (tamano h + 1))
  end.

End Uso.
Import Uso.

(** ** [ListaSensor<T>] at the pointer level

    [Nodo<T>] objects live in a heap [gmap loc Nodo]: [new] takes a
    location not in use ([fresh]), [delete] removes it.  A list object is
    its two fields [cabeza] and [tamaño].  Every loop walks a chain with a
    fuel larger than the heap, so it can only run out on a cyclic chain
    ([None], where the C++ loop would not terminate); [None] is also the
    result of following a dangling pointer.  Messages are not recorded in
    this layer. *)
Module Heap.
Section heap.
Context {T : Type} `{Numero T}.

Definition loc := positive.

Record Nodo := mkNodo { dato : T; siguiente : option loc }.

Record ListaSensor := mkLista { cabeza : option loc; tamano : Z }.

Definition combustible (m : gmap loc Nodo) : nat := S (size m).

(** [new Nodo<T>(valor)] *)
Definition nuevo (m : gmap loc Nodo) (n : Nodo) : loc * gmap loc Nodo :=
  let l := fresh (dom m) in (l, <[l:=n]> m).

(** [while (actual->siguiente != nullptr) actual = actual->siguiente;] *)
Fixpoint ultimo (fuel : nat) (m : gmap loc Nodo) (actual : loc) : option loc :=
  match fuel with
  | O => None
  | S f =>
      n ← m !! actual ;
      match siguiente n with
      | None => Some actual
      | Some s => ultimo f m s
      end
  end.

Definition insertarAlFinal (m : gmap loc Nodo) (L : ListaSensor) (valor : T)
  : option (gmap loc Nodo * ListaSensor) :=
  let '(nuevoNodo, m1) := nuevo m (mkNodo valor None) in
  match cabeza L with
  | None => Some (m1, mkLista (Some nuevoNodo) (tamano L + 1))
  | Some c =>
      actual ← ultimo (combustible m1) m1 c ;
      n ← m1 !! actual ;
      Some (<[actual := mkNodo (dato n) (Some nuevoNodo)]> m1,
            mkLista (cabeza L) (tamano L + 1))
  end.

(** The scan of [eliminarMinimo]: state [minNodo], [anteriorMin],
    [anterior], [actual]. *)
Fixpoint escanear (fuel : nat) (m : gmap loc Nodo) (minNodo : loc)
    (anteriorMin anterior actual : option loc) : option (loc * option loc) :=
  match actual with
  | None => Some (minNodo, anteriorMin)
  | Some a =>
      match fuel with
      | O => None
      | S f =>
          na ← m !! a ;
          nmin ← m !! minNodo ;
          if menor (dato na) (dato nmin)
          then escanear f m a anterior (Some a) (siguiente na)
          else escanear f m minNodo anteriorMin (Some a) (siguiente na)
      end
  end.

(** The removed value, the heap and the list after the call. *)
Definition eliminarMinimo (m : gmap loc Nodo) (L : ListaSensor)
  : option (T * gmap loc Nodo * ListaSensor) :=
  match cabeza L with
  | None => Some (cero, m, L)
  | Some c =>
      '(minNodo, anteriorMin) ← escanear (combustible m) m c None None (Some c) ;
      nmin ← m !! minNodo ;
      if bool_decide (minNodo = c) then
        Some (dato nmin, delete minNodo m, mkLista (siguiente nmin) (tamano L - 1))
      else
        a ← anteriorMin ;
        na ← m !! a ;
        Some (dato nmin,
              delete minNodo (<[a := mkNodo (dato na) (siguiente nmin)]> m),
              mkLista (cabeza L) (tamano L - 1))
  end.

(** The loop [while (cabeza != nullptr) { temp = cabeza; cabeza =
    cabeza->siguiente; delete temp; }] of [operator=] and the destructor. *)
Fixpoint liberar (fuel : nat) (m : gmap loc Nodo) (actual : option loc)
  : option (gmap loc Nodo) :=
  match actual with
  | None => Some m
  | Some a =>
      match fuel with
      | O => None
      | S f => n ← m !! a ; liberar f (delete a m) (siguiente n)
      end
  end.

(** The loop [insertarAlFinal(actual->dato); actual = actual->siguiente;]
    of the copy constructor and [operator=]. *)
Fixpoint copiar_desde (fuel : nat) (m : gmap loc Nodo) (L : ListaSensor)
    (actual : option loc) : option (gmap loc Nodo * ListaSensor) :=
  match actual with
  | None => Some (m, L)
  | Some a =>
      match fuel with
      | O => None
      | S f =>
          n ← m !! a ;
          '(m', L') ← insertarAlFinal m L (dato n) ;
          copiar_desde f m' L' (siguiente n)
      end
  end.

(** [ListaSensor(const ListaSensor& otra) : cabeza(nullptr), tamaño(0)] *)
Definition copiar (m : gmap loc Nodo) (otra : ListaSensor)
  : option (gmap loc Nodo * ListaSensor) :=
  copiar_desde (combustible m) m (mkLista None 0) (cabeza otra).

(** The values [imprimir] prints, in order. *)
Fixpoint recorrer (fuel : nat) (m : gmap loc Nodo) (actual : option loc)
  : option (list T) :=
  match actual with
  | None => Some []
  | Some a =>
      match fuel with
      | O => None
      | S f => n ← m !! a ; r ← recorrer f m (siguiente n) ; Some (dato n :: r)
      end
  end.

Definition imprimir (m : gmap loc Nodo) (L : ListaSensor) : option (list T) :=
  recorrer (combustible m) m (cabeza L).

Definition obtenerTamano (L : ListaSensor) : Z := tamano L.

Definition estaVacia (L : ListaSensor) : bool :=
  match cabeza L with None => true | Some _ => false end.

(** The program's list objects: the heap and the objects, named. *)
Record Mundo := mkMundo { memoria : gmap loc Nodo; objetos : gmap nat ListaSensor }.

Inductive Op :=
| Construir (o : nat)             (* ListaSensor<T> o; *)
| Insertar (o : nat) (v : T)      (* o.insertarAlFinal(v); *)
| EliminarMin (o : nat)           (* o.eliminarMinimo(); *)
| CopiarDe (o src : nat)          (* ListaSensor<T> o(src); *)
| Asignar (o src : nat)           (* o = src; *)
| Destruir (o : nat).             (* end of the lifetime of o *)

Definition objetivo (op : Op) : nat :=
  match op with
  | Construir o | Insertar o _ | EliminarMin o | CopiarDe o _ | Asignar o _
  | Destruir o => o
  end.

(** The first half of [operator=]: release the destination's nodes. *)
Definition asignar_liberar (m : gmap loc Nodo) (L : ListaSensor) : option (gmap loc Nodo) :=
  liberar (combustible m) m (cabeza L).

Definition paso (w : Mundo) (op : Op) : option Mundo :=
  let m := memoria w in
  let objs := objetos w in
  match op with
  | Construir o =>
      match objs !! o with
      | Some _ => None
      | None => Some (mkMundo m (<[o := mkLista None 0]> objs))
      end
  | Insertar o v =>
      L ← objs !! o ;
      '(m', L') ← insertarAlFinal m L v ;
      Some (mkMundo m' (<[o := L']> objs))
  | EliminarMin o =>
      L ← objs !! o ;
      '(_, m', L') ← eliminarMinimo m L ;
      Some (mkMundo m' (<[o := L']> objs))
  | CopiarDe o src =>
      match objs !! o with
      | Some _ => None
      | None =>
          Ls ← objs !! src ;
          '(m', L') ← copiar m Ls ;
          Some (mkMundo m' (<[o := L']> objs))
      end
  | Asignar o src =>
      Ld ← objs !! o ;
      Ls ← objs !! src ;
      if bool_decide (o = src) then Some w
      else
        m1 ← asignar_liberar m Ld ;
        '(m2, L') ← copiar_desde (combustible m1) m1 (mkLista None 0) (cabeza Ls) ;
        Some (mkMundo m2 (<[o := L']> objs))
  | Destruir o =>
      L ← objs !! o ;
      m' ← liberar (combustible m) m (cabeza L) ;
      Some (mkMundo m' (delete o objs))
  end.

Fixpoint pasos (w : Mundo) (ops : list Op) : option Mundo :=
  match ops with
  | [] => Some w
  | op :: r => w' ← paso w op ; pasos w' r
  end.

Inductive alcanzable : Mundo → Prop :=
| alc_inicio : alcanzable (mkMundo ∅ ∅)
| alc_paso w op w' : alcanzable w → paso w op = Some w' → alcanzable w'.

(** The chain from [p] visits the locations [ls] and ends in [nullptr]. *)
Inductive cadena (m : gmap loc Nodo) : option loc → list loc → Prop :=
| cadena_nil : cadena m None []
| cadena_cons l n ls :
    m !! l = Some n → l ∉ ls → cadena m (siguiente n) ls → cadena m (Some l) (l :: ls).

(** The values stored at the locations [ls], in order. *)
Definition valores (m : gmap loc Nodo) (ls : list loc) : list T :=
  omap (λ l, dato <$> m !! l) ls.

(** Every object is a [nullptr]-terminated chain of [tamano] nodes, and
    no node belongs to two objects. *)
Definition bien_formado (w : Mundo) : Prop :=
  (∀ o L, objetos w !! o = Some L →
     ∃ ls, cadena (memoria w) (cabeza L) ls ∧ tamano L = Z.of_nat (length ls))
  ∧ (∀ o1 o2 L1 L2 ls1 ls2, o1 ≠ o2 →
       objetos w !! o1 = Some L1 → objetos w !! o2 = Some L2 →
       cadena (memoria w) (cabeza L1) ls1 → cadena (memoria w) (cabeza L2) ls2 →
       ls1 ## ls2).

(** Every allocated node belongs to the chain of a live list object. *)
Definition sin_fugas (w : Mundo) : Prop :=
  ∀ x, x ∈ dom (memoria w) →
    ∃ o L ls, objetos w !! o = Some L ∧ cadena (memoria w) (cabeza L) ls ∧ x ∈ ls.

End heap.
Arguments ListaSensor : clear implicits.
Arguments Nodo : clear implicits.
Arguments Mundo : clear implicits.
Arguments Op : clear implicits.
End Heap.

(** * The rest of the program: [procesarTodos], the registry, the
    fields of a line, the framing of the serial stream and the ESP32 sketch *)

Module Todos.

(** What [procesarTodos] prints: its own two lines and the messages of
    the [procesarLectura] calls. *)
Inductive salida :=
| Mensaje (m : msg)
| SinSensoresParaProcesar      (* "[Gestor] No hay sensores para procesar." *)
| EjecutandoPolimorfismo.      (* "\n--- Ejecutando Polimorfismo ---" *)

(** The loop [actual->sensor->procesarLectura(); actual = actual->siguiente;]. *)
Fixpoint procesar_cada (l : list Sensor) : W (list Sensor) :=
  match l with
  | [] => mret []
  | s :: r => s' ← procesarLectura s ; r' ← procesar_cada r ; mret (s' :: r')
  end.

Definition procesarTodos (g : GestorSensores) : GestorSensores * list salida :=
  match sensores g with
  | [] => (g, [SinSensoresParaProcesar])
  | _ :: _ =>
      let '(l, ms) := procesar_cada (sensores g) in
      (mkGestor l (cantidad g), EjecutandoPolimorfismo :: map Mensaje ms)
  end.

End Todos.
Import Todos.

Module Registro.

(** The [tamaño] counter of a sensor's history equals its number of nodes. *)
Definition historial_consistente (s : Sensor) : Prop :=
  match s with
  | SensorTemperatura _ h => tamano h = Z.of_nat (length (nodos h))
  | SensorPresion _ h => tamano h = Z.of_nat (length (nodos h))
  end.

(** [cantidad] counts the chain, no two sensors share a name, every
    history is consistent. *)
Definition registro_valido (g : GestorSensores) : Prop :=
  cantidad g = Z.of_nat (length (sensores g))
  ∧ NoDup (map obtenerNombre (sensores g))
  ∧ Forall historial_consistente (sensores g).

(** Same kind and name, and the readings of [s] begin those of [s']. *)
Definition lecturas_prefijo (s s' : Sensor) : Prop :=
  match s, s' with
  | SensorTemperatura n h, SensorTemperatura n' h' => n = n' ∧ nodos h `prefix_of` nodos h'
  | SensorPresion n h, SensorPresion n' h' => n = n' ∧ nodos h `prefix_of` nodos h'
  | _, _ => False
  end.

End Registro.
Import Registro.

(** ** The comma-separated pieces that [strtok(linea, ",")] walks *)

(** The comma-separated pieces of a line, empty ones included. *)
Fixpoint trozos (s : list ascii) : list (list ascii) :=
  match s with
  | [] => [[]]
  | c :: r =>
      if Ascii.eqb c ","%char then [] :: trozos r
      else match trozos r with
           | t :: ts => (c :: t) :: ts
           | [] => [[c]]
           end
  end.

Definition no_vacios (ts : list (list ascii)) : list (list ascii) :=
  filter (λ t, t ≠ []) ts.

(** A piece without commas. *)
Definition sin_coma (t : list ascii) : Prop := ∀ c, c ∈ t → Ascii.eqb c ","%char = false.

Definition texto (s : string) : list ascii := String.list_ascii_of_string s.

(** ** Lines and their terminators on the serial port *)

Definition es_nul (c : ascii) : bool := Ascii.eqb c "000"%char.

(** Lines, each followed by its terminator bytes. *)
Fixpoint enmarcar (lineas : list (list ascii * list ascii)) : list ascii :=
  match lineas with
  | [] => []
  | (l, t) :: r => l ++ t ++ enmarcar r
  end.

Definition trama_valida (lt : list ascii * list ascii) : Prop :=
  lt.1 ≠ [] ∧ Forall (λ c, es_fin_de_linea c = false ∧ es_nul c = false) lt.1
  ∧ lt.2 ≠ [] ∧ Forall (λ c, es_fin_de_linea c = true) lt.2.

(** ** The ESP32 sketch [SimuladorSensores.ino] *)

Module Simulador.
Import Conv.
Section simulador.

(** The bytes the Arduino core's [Serial] object writes for the calls of
    the sketch: [println] ends a line with [fin_de_linea];
    [print(temp, 1)], [print(temp)] and [print(presion)] write the text
    [imprimir_float1], [imprimir_float] and [imprimir_int] of the
    number.  [print] of a string writes its bytes. *)
Context (fin_de_linea : list ascii) (imprimir_float1 imprimir_float : Q → list ascii)
        (imprimir_int : Z → list ascii).

Definition print (s : string) : list ascii := String.list_ascii_of_string s.

Definition println (s : list ascii) : list ascii := s ++ fin_de_linea.

Definition TEMP_SENSOR_1 : string := "T-001".
Definition TEMP_SENSOR_2 : string := "T-002".
Definition PRES_SENSOR_1 : string := "P-101".
Definition PRES_SENSOR_2 : string := "P-102".

(** [random(150, 350) / 10.0], for the value [r] [random] returned. *)
Definition generarTemperatura (r : Z) : Q := inject_Z r / 10.

(** [random(980, 1041)], for the value [r] [random] returned. *)
Definition generarPresion (r : Z) : Z := r.

Definition enviarTemperatura (sensorId : string) (r : Z) : list ascii :=
  let temp := generarTemperatura r in
  print "T," ++ print sensorId ++ print "," ++ imprimir_float1 temp ++ println []
  ++ print "[ESP32] Enviado - Temperatura " ++ print sensorId ++ print ": "
  ++ imprimir_float temp ++ println (print " °C").

Definition enviarPresion (sensorId : string) (r : Z) : list ascii :=
  let presion := generarPresion r in
  print "P," ++ print sensorId ++ print "," ++ imprimir_int presion ++ println []
  ++ print "[ESP32] Enviado - Presión " ++ print sensorId ++ print ": "
  ++ imprimir_int presion ++ println (print " hPa").

(** The bytes of [setup()]; "\n" is the byte 10. *)
Definition setup : list ascii :=
  println ("010"%char :: print "========================================")
  ++ println (print "  Simulador de Sensores IoT - ESP32")
  ++ println (print "========================================")
  ++ println (print "Baudrate: 115200")
  ++ println (print "Formato: TIPO,ID,VALOR")
  ++ println (print "Sensores activos: T-001, T-002, P-101, P-102")
  ++ println (print "Iniciando transmisión..." ++ ["010"%char]).

(** The values the four [random] calls of one [loop()] return. *)
Record ciclo := mkCiclo { rT1 : Z; rT2 : Z; rP1 : Z; rP2 : Z }.

Definition loop (k : ciclo) : list ascii :=
  enviarTemperatura TEMP_SENSOR_1 (rT1 k)
  ++ enviarTemperatura TEMP_SENSOR_2 (rT2 k)
  ++ enviarPresion PRES_SENSOR_1 (rP1 k)
  ++ enviarPresion PRES_SENSOR_2 (rP2 k)
  ++ println (print "--- Ciclo completado ---" ++ ["010"%char]).

(** Everything the board writes: [setup()], then [loop()] once per cycle. *)
Definition salida_serial (ciclos : list ciclo) : list ascii :=
  setup ++ concat (map loop ciclos).

(** The reading [main] stores for a temperature, and for a pressure. *)
Definition lectura_temp (r : Z) : Q :=
  atof (String.string_of_list_ascii (imprimir_float1 (generarTemperatura r))).

Definition lectura_pres (r : Z) : Z :=
  atoi (String.string_of_list_ascii (imprimir_int (generarPresion r))).

(** The registry after the cycles [ks]: the four sensors in the order of
    [loop()], each with one reading per cycle. *)
Definition registro_tras (ks : list ciclo) : GestorSensores :=
  mkGestor
    [SensorTemperatura TEMP_SENSOR_1
       (mkLista (map (λ k, lectura_temp (rT1 k)) ks) (Z.of_nat (length ks)));
     SensorTemperatura TEMP_SENSOR_2
       (mkLista (map (λ k, lectura_temp (rT2 k)) ks) (Z.of_nat (length ks)));
     SensorPresion PRES_SENSOR_1
       (mkLista (map (λ k, lectura_pres (rP1 k)) ks) (Z.of_nat (length ks)));
     SensorPresion PRES_SENSOR_2
       (mkLista (map (λ k, lectura_pres (rP2 k)) ks) (Z.of_nat (length ks)))] 4.

(** The same bytes cut into lines and their terminators. *)
Definition tramas_setup : list (list ascii * list ascii) :=
  [(print "========================================", fin_de_linea);
   (print "  Simulador de Sensores IoT - ESP32", fin_de_linea);
   (print "========================================", fin_de_linea);
   (print "Baudrate: 115200", fin_de_linea);
   (print "Formato: TIPO,ID,VALOR", fin_de_linea);
   (print "Sensores activos: T-001, T-002, P-101, P-102", fin_de_linea);
   (print "Iniciando transmisión...", "010"%char :: fin_de_linea)].

Definition tramas_temp (sensorId : string) (r : Z) : list (list ascii * list ascii) :=
  [(print "T," ++ print sensorId ++ print "," ++ imprimir_float1 (generarTemperatura r),
    fin_de_linea);
   (print "[ESP32] Enviado - Temperatura " ++ print sensorId ++ print ": "
      ++ imprimir_float (generarTemperatura r) ++ print " °C", fin_de_linea)].

Definition tramas_pres (sensorId : string) (r : Z) : list (list ascii * list ascii) :=
  [(print "P," ++ print sensorId ++ print "," ++ imprimir_int (generarPresion r), fin_de_linea);
   (print "[ESP32] Enviado - Presión " ++ print sensorId ++ print ": "
      ++ imprimir_int (generarPresion r) ++ print " hPa", fin_de_linea)].

Definition tramas_ciclo (k : ciclo) : list (list ascii * list ascii) :=
  tramas_temp TEMP_SENSOR_1 (rT1 k) ++ tramas_temp TEMP_SENSOR_2 (rT2 k)
  ++ tramas_pres PRES_SENSOR_1 (rP1 k) ++ tramas_pres PRES_SENSOR_2 (rP2 k)
  ++ [(print "--- Ciclo completado ---", "010"%char :: fin_de_linea)].

End simulador.
End Simulador.
Import Simulador.

(** A number's text as [Serial] writes it: not empty, short, and without
    commas, line terminators or NUL bytes. *)
Definition numeral (l : list ascii) : Prop :=
  l ≠ [] ∧ (length l ≤ 200)%nat
  ∧ Forall (λ c, Ascii.eqb c ","%char = false ∧ es_fin_de_linea c = false ∧ es_nul c = false) l.

(** * Proofs *)

(** ** The order on [int] and on [float] *)

#[global] Instance orden_int : OrdenEstricto Z.
Proof.
  split; simpl.
  - intros x. apply Z.ltb_irrefl.
  - intros x y z Hxy Hyz. apply Z.ltb_lt in Hxy, Hyz. apply Z.ltb_lt. lia.
  - intros x y z Hxz Hyz. apply Z.ltb_lt in Hxz. apply Z.ltb_ge in Hyz. apply Z.ltb_lt. lia.
Qed.

Lemma Qltb_Qlt (x y : Q) : Qltb x y = true ↔ (x < y)%Q.
Proof. unfold Qltb, Qlt. apply Z.ltb_lt. Qed.

Lemma Qltb_Qle (x y : Q) : Qltb x y = false ↔ (y <= x)%Q.
Proof. unfold Qltb, Qle. rewrite Z.ltb_ge. reflexivity. Qed.

#[global] Instance orden_float : OrdenEstricto Q.
Proof.
  split; simpl.
  - intros x. apply Qltb_Qle. apply Qle_refl.
  - intros x y z Hxy Hyz. apply Qltb_Qlt in Hxy, Hyz. apply Qltb_Qlt.
    eapply Qlt_trans; eauto.
  - intros x y z Hxz Hyz. apply Qltb_Qlt in Hxz. apply Qltb_Qle in Hyz. apply Qltb_Qlt.
    eapply Qlt_le_trans; eauto.
Qed.

(** ** The scan of [eliminarMinimo] *)
Section minimo.
Context {T : Type} `{Numero T} `{!OrdenEstricto T}.

Lemma menor_asim (x y : T) : menor x y = true → menor y x = false.
Proof.
  intros Hxy. destruct (menor y x) eqn:E; [|done].
  pose proof (menor_trans _ _ _ Hxy E) as Hxx. by rewrite menor_irrefl in Hxx.
Qed.

Lemma buscarMinimo_inv (l pre rest : list T) (cur : T) (ic : nat) :
  l = pre ++ rest →
  l !! ic = Some cur → (ic ≤ length pre)%nat →
  (∀ y, y ∈ pre → menor y cur = false) →
  (∀ j y, (j < ic)%nat → l !! j = Some y → menor cur y = true) →
  ∃ m im, buscarMinimo rest (length pre) cur ic = (m, im) ∧ minimo_primero l m im.
Proof.
  revert pre cur ic. induction rest as [|x rest IH]; intros pre cur ic Hl Hcur Hic Hmin Hprev.
  - exists cur, ic. split; [done|]. rewrite app_nil_r in Hl. subst l.
    split; [done|]. split; [done|]. done.
  - simpl. assert (Hl' : l = (pre ++ [x]) ++ rest) by (rewrite <-app_assoc; done).
    assert (Hx : l !! length pre = Some x).
    { rewrite Hl, lookup_app_r, Nat.sub_diag by lia. done. }
    assert (Hlen : S (length pre) = length (pre ++ [x])) by (rewrite length_app; simpl; lia).
    destruct (menor x cur) eqn:Exc.
    + rewrite Hlen. apply (IH (pre ++ [x]) x (length pre)); [done|done| rewrite length_app; simpl; lia | |].
      * intros y Hy. apply elem_of_app in Hy as [Hy|Hy].
        -- apply menor_asim. apply (menor_comparable _ _ cur); [done|]. by apply Hmin.
        -- apply list_elem_of_singleton in Hy. subst y. apply menor_irrefl.
      * intros j y Hj Hy. apply (menor_comparable _ _ cur); [done|]. apply Hmin.
        rewrite Hl, lookup_app_l in Hy by lia. by eapply list_elem_of_lookup_2.
    + rewrite Hlen. apply (IH (pre ++ [x]) cur ic); [done|done| rewrite length_app; simpl; lia | |done].
      intros y Hy. apply elem_of_app in Hy as [Hy|Hy]; [by apply Hmin|].
      apply list_elem_of_singleton in Hy. by subst y.
Qed.

Lemma buscarMinimo_correcto (x : T) (r : list T) :
  ∃ m im, buscarMinimo (x :: r) 0 x 0 = (m, im) ∧ minimo_primero (x :: r) m im.
Proof.
  apply (buscarMinimo_inv (x :: r) [] (x :: r) x 0); [done|done|simpl; lia| |].
  - intros y Hy. by apply not_elem_of_nil in Hy.
  - intros j y Hj. lia.
Qed.

End minimo.

(** ** Claim C3: [eliminarMinimo] on a non-empty list *)

(** C3. On a non-empty list, [eliminarMinimo] returns the smallest value,
    the earliest one among equal minima (every earlier element is strictly
    greater), removes exactly that one element, leaves the others in their
    order, and decreases the counter by one. *)
Theorem eliminarMinimo_correcto {T : Type} `{Numero T} `{!OrdenEstricto T}
    (L : ListaSensor T) :
  nodos L ≠ [] →
  ∃ m i, eliminarMinimo L =
           ((m, mkLista (delete i (nodos L)) (tamano L - 1)), [LogMinimoEliminado (mostrar m)])
       ∧ minimo_primero (nodos L) m i
       ∧ length (delete i (nodos L)) = (length (nodos L) - 1)%nat.
Proof.
  intros Hne. destruct L as [xs t]; simpl in *.
  destruct xs as [|x r]; [done|].
  destruct (buscarMinimo_correcto x r) as (m & im & Hb & Hm).
  exists m, im. unfold eliminarMinimo. cbn [nodos tamano]. rewrite Hb. split; [done|]. split; [done|].
  apply length_delete. destruct Hm as [Hi _]. by eexists.
Qed.

Lemma eliminarMinimo_correcto_witness :
  nodos (mkLista [3; 1; 2; 1] 4) ≠ [] ∧
  ∃ m i, eliminarMinimo (mkLista [3; 1; 2; 1] 4) =
           ((m, mkLista (delete i [3; 1; 2; 1]) (4 - 1)), [LogMinimoEliminado (mostrar m)])
       ∧ minimo_primero [3; 1; 2; 1] m i
       ∧ length (delete i [3; 1; 2; 1]) = (length [3; 1; 2; 1] - 1)%nat.
Proof.
  split; [discriminate|].
  apply (eliminarMinimo_correcto (T:=Z) (mkLista [3; 1; 2; 1] 4)). discriminate.
Defined.

(** ** Claim C7: queries on an empty list *)

(** C7. On a list with no element, [calcularPromedio] returns zero and
    prints the warning "[ADVERTENCIA] Lista vacía, retornando 0.", and
    [eliminarMinimo] returns zero, prints "[ERRROR] No hay elementos para
    eliminar." and leaves the list (and its counter) as it was. *)
Theorem lista_vacia_consultas {T : Type} `{Numero T} (L : ListaSensor T) :
  nodos L = [] →
  calcularPromedio L = (cero, [AdvListaVacia])
  ∧ eliminarMinimo L = ((cero, L), [ErrSinElementos]).
Proof. intros HL. unfold calcularPromedio, eliminarMinimo. rewrite HL. done. Qed.

Lemma lista_vacia_consultas_witness :
  nodos (T:=Z) (mkLista [] 0) = [] ∧
  calcularPromedio (T:=Z) (mkLista [] 0) = (0, [AdvListaVacia])
  ∧ eliminarMinimo (T:=Z) (mkLista [] 0) = ((0, mkLista [] 0), [ErrSinElementos]).
Proof.
  split; [reflexivity|].
  exact (lista_vacia_consultas (T:=Z) (mkLista [] 0) eq_refl).
Defined.

(** ** Claims C1 and C4: [procesarLectura] *)

Lemma promedio_de_uno (x : Q) : dividir (fold_left sumar [x] cero) 1 = x.
Proof.
  destruct x as [n d]. cbn. unfold Qdiv, Qmult, Qinv, Qplus. cbn.
  rewrite Z.mul_1_r, !Pos.mul_1_r, Z.mul_1_r. reflexivity.
Qed.

Lemma fold_left_suma (xs : list Z) (a : Z) :
  fold_left Z.add xs a = a + foldr Z.add 0 xs.
Proof. revert a. induction xs as [|x xs IH]; intros a; simpl; [lia|]. rewrite IH. lia. Qed.

Lemma a_int_id (z : Z) : en_int z → a_int z = z.
Proof. unfold en_int, a_int, INT_MIN, INT_MAX. intros Hz. rewrite Z.mod_small by lia. lia. Qed.

(** The [int] accumulator of [calcularPromedio] holds the exact sum when
    no running sum leaves the range of [int]. *)
Lemma suma_int (xs : list Z) (a : Z) :
  (∀ k, en_int (a + foldr Z.add 0 (take k xs))) →
  fold_left (λ s x, a_int (s + x)) xs a = a + foldr Z.add 0 xs.
Proof.
  revert a. induction xs as [|x xs IH]; intros a Hk; simpl; [lia|].
  pose proof (Hk 1%nat) as H1. simpl in H1. rewrite Z.add_0_r in H1.
  rewrite (a_int_id _ H1). rewrite IH; [lia|].
  intros k. specialize (Hk (S k)). simpl in Hk. by rewrite Z.add_assoc in Hk.
Qed.

Lemma suma_acotada (xs : list Z) (lo hi : Z) :
  Forall (λ x, lo ≤ x ≤ hi) xs →
  Z.of_nat (length xs) * lo ≤ foldr Z.add 0 xs ≤ Z.of_nat (length xs) * hi.
Proof. induction 1 as [|x xs Hx _ IH]; simpl; lia. Qed.

(** Readings in [lo..hi], with [n * lo] and [n * hi] in the range of
    [int], keep every running sum in that range. *)
Lemma prefijos_en_int (xs : list Z) (lo hi : Z) :
  Forall (λ x, lo ≤ x ≤ hi) xs →
  INT_MIN ≤ Z.of_nat (length xs) * lo → Z.of_nat (length xs) * hi ≤ INT_MAX →
  ∀ k, en_int (foldr Z.add 0 (take k xs)).
Proof.
  intros Hb Hlo Hhi k.
  pose proof (suma_acotada _ _ _ (Forall_take _ k _ Hb)) as Hs.
  assert (Hl : (length (take k xs) ≤ length xs)%nat) by (rewrite length_take; lia).
  unfold en_int, INT_MIN, INT_MAX in *.
  remember (Z.of_nat (length (take k xs))) as m eqn:Em.
  remember (Z.of_nat (length xs)) as N eqn:EN.
  assert (Hm : 0 ≤ m ≤ N) by lia. clear Em EN Hl Hb.
  assert (-2147483648 ≤ m * lo) by (destruct (Z.le_gt_cases 0 lo); nia).
  assert (m * hi ≤ 2147483647) by (destruct (Z.le_gt_cases 0 hi); nia).
  lia.
Qed.

Lemma promedio_presion (n : string) (xs : list Z) :
  xs ≠ [] → (∀ k, en_int (foldr Z.add 0 (take k xs))) →
  procesarLectura (SensorPresion n (mkLista xs (Z.of_nat (length xs)))) =
    (SensorPresion n (mkLista xs (Z.of_nat (length xs))),
     [LogProcesando n;
      PresPromedio (Z.of_nat (length xs))
        (VInt (Z.quot (foldr Z.add 0 xs) (Z.of_nat (length xs))))]).
Proof.
  intros Hne Hk. destruct xs as [|x r]; [done|].
  unfold procesarLectura, estaVacia, obtenerTamano, calcularPromedio. cbn [nodos tamano].
  cbn -[fold_left foldr Z.quot length a_int take].
  rewrite suma_int, Z.add_0_l; [reflexivity|].
  intros k. rewrite Z.add_0_l. apply Hk.
Qed.

(** C1. [SensorTemperatura::procesarLectura], for a history whose counter
    equals its number of readings: with no reading it prints only the
    "no readings" notice and changes nothing; with more than one reading
    it removes the smallest one (the earliest among equal minima), prints
    it and prints no mean; with exactly one reading it prints the mean,
    which is that reading.  Fed "T,T-001,45.3", "T,T-001,42.1",
    "T,T-001,47.8", three calls remove 42.1, then 45.3, then print the
    mean 47.8. *)
Theorem procesar_temperatura (n : string) (h : ListaSensor Q) :
  tamano h = Z.of_nat (length (nodos h)) →
  (nodos h = [] →
     procesarLectura (SensorTemperatura n h) =
       (SensorTemperatura n h, [LogProcesando n; TempSinLecturas]))
  ∧ ((1 < length (nodos h))%nat →
     ∃ m i, procesarLectura (SensorTemperatura n h) =
              (SensorTemperatura n (mkLista (delete i (nodos h)) (tamano h - 1)),
               [LogProcesando n; LogMinimoEliminado (VFloat m); TempMinimoEliminado (VFloat m)])
          ∧ minimo_primero (nodos h) m i)
  ∧ (∀ x, nodos h = [x] →
     procesarLectura (SensorTemperatura n h) =
       (SensorTemperatura n h, [LogProcesando n; TempPromedio 1 (VFloat x)]))
  ∧ (let g := (alimentar ["T,T-001,45.3"; "T,T-001,42.1"; "T,T-001,47.8"] gestor_vacio).1 in
     let '(g1, o1) := procesarSensor "T-001" g in
     let '(g2, o2) := procesarSensor "T-001" g1 in
     let '(g3, o3) := procesarSensor "T-001" g2 in
     o1 = [LogProcesando "T-001"; LogMinimoEliminado (VFloat (421 # 10));
           TempMinimoEliminado (VFloat (421 # 10))]
     ∧ sensores g1 = [SensorTemperatura "T-001" (mkLista [453 # 10; 478 # 10] 2)]
     ∧ o2 = [LogProcesando "T-001"; LogMinimoEliminado (VFloat (453 # 10));
             TempMinimoEliminado (VFloat (453 # 10))]
     ∧ sensores g2 = [SensorTemperatura "T-001" (mkLista [478 # 10] 1)]
     ∧ o3 = [LogProcesando "T-001"; TempPromedio 1 (VFloat (478 # 10))]
     ∧ sensores g3 = sensores g2).
Proof.
  intros Ht. destruct h as [xs t]; simpl in Ht |- *. split; [|split; [|split]].
  - intros ->. reflexivity.
  - intros Hlen. destruct (eliminarMinimo_correcto (mkLista xs t)) as (m & i & He & Hm & _).
    { simpl. intros ->. simpl in Hlen. lia. }
    exists m, i. split; [|done].
    unfold procesarLectura, estaVacia, obtenerTamano. cbn [nodos tamano].
    destruct xs as [|x r]; [simpl in Hlen; lia|].
    replace (1 <? t) with true by (symmetry; apply Z.ltb_lt; lia).
    rewrite He. reflexivity.
  - intros x ->. simpl in Ht. subst t.
    unfold procesarLectura, estaVacia, obtenerTamano, calcularPromedio. cbn [nodos tamano].
    replace (1 <? 1) with false by reflexivity.
    cbn -[dividir fold_left sumar cero]. rewrite promedio_de_uno. reflexivity.
  - vm_compute. repeat split.
Qed.

Lemma procesar_temperatura_witness :
  tamano (mkLista [453 # 10; 421 # 10] 2) = Z.of_nat (length (nodos (mkLista [453 # 10; 421 # 10] 2))) ∧
  ((1 < length [453 # 10; 421 # 10])%nat →
   ∃ m i, procesarLectura (SensorTemperatura "T-9" (mkLista [453 # 10; 421 # 10] 2)) =
            (SensorTemperatura "T-9" (mkLista (delete i [453 # 10; 421 # 10]) (2 - 1)),
             [LogProcesando "T-9"; LogMinimoEliminado (VFloat m); TempMinimoEliminado (VFloat m)])
        ∧ minimo_primero [453 # 10; 421 # 10] m i).
Proof.
  split; [reflexivity|].
  exact (proj1 (proj2 (procesar_temperatura "T-9" (mkLista [453 # 10; 421 # 10] 2) eq_refl))).
Defined.




(** ** Claim C9: the registry *)

Lemma buscar_desde_Some (l : list Sensor) (id : string) (k i : nat) :
  buscar_desde l id k = Some i ↔
  (k ≤ i)%nat ∧ (∃ s, l !! (i - k)%nat = Some s ∧ obtenerNombre s = id)
  ∧ (∀ j s, (j < i - k)%nat → l !! j = Some s → obtenerNombre s ≠ id).
Proof.
  revert k. induction l as [|s l IH]; intros k; simpl.
  - split; [done|]. intros (_ & (s & Hs & _) & _). done.
  - destruct (String.eqb_spec (obtenerNombre s) id) as [Heq|Hne].
    + split.
      * intros [= <-]. rewrite Nat.sub_diag. split; [lia|]. split; [by exists s|].
        intros j s' Hj. lia.
      * intros (Hk & _ & Hprev). destruct (decide (i = k)) as [->|Hik]; [done|].
        exfalso. apply (Hprev 0%nat s); [lia|done|done].
    + rewrite IH. split.
      * intros (Hk & (s' & Hs' & Hn) & Hprev). split; [lia|]. split.
        -- exists s'. replace (i - k)%nat with (S (i - S k)) by lia. done.
        -- intros [|j] s'' Hj Hl; simpl in Hl; [by injection Hl as <-|].
           apply (Hprev j); [lia|done].
      * intros (Hk & (s' & Hs' & Hn) & Hprev).
        destruct (decide (i = k)) as [->|Hik].
        { rewrite Nat.sub_diag in Hs'. simpl in Hs'. injection Hs' as <-. done. }
        split; [lia|]. split.
        -- exists s'. replace (i - k)%nat with (S (i - S k)) in Hs' by lia. done.
        -- intros j s'' Hj Hl. apply (Hprev (S j)); [lia|done].
Qed.

Lemma buscar_desde_None (l : list Sensor) (id : string) (k : nat) :
  buscar_desde l id k = None ↔ ∀ s, s ∈ l → obtenerNombre s ≠ id.
Proof.
  revert k. induction l as [|s l IH]; intros k; simpl.
  - split; [|done]. intros _ s Hs. by apply not_elem_of_nil in Hs.
  - destruct (String.eqb_spec (obtenerNombre s) id) as [Heq|Hne].
    + split; [done|]. intros Hall. exfalso. apply (Hall s); [left|done].
    + rewrite IH. split.
      * intros Hall s' Hs'. apply elem_of_cons in Hs' as [->|Hs']; [done|]. by apply Hall.
      * intros Hall s' Hs'. apply Hall. by right.
Qed.

(** C9. [agregarSensor] appends the sensor at the end and adds one to the
    count, whatever names are already present; [buscarSensor] returns the
    position of the first sensor with the given name, and "not found"
    exactly when no sensor has it.  After registering "T-001" and
    "P-105", each is found, and "X-999" is not. *)
Theorem gestor_agregar_buscar (g : GestorSensores) (s : Sensor) (id : string) :
  (agregarSensor g s).1 = mkGestor (sensores g ++ [s]) (cantidad g + 1)
  ∧ (∀ i, buscarSensor g id = Some i ↔
          (∃ s', sensores g !! i = Some s' ∧ obtenerNombre s' = id)
          ∧ (∀ j s', (j < i)%nat → sensores g !! j = Some s' → obtenerNombre s' ≠ id))
  ∧ (buscarSensor g id = None ↔ ∀ s', s' ∈ sensores g → obtenerNombre s' ≠ id)
  ∧ (let sT := (nuevoSensorTemperatura "T-001").1 in
     let sP := (nuevoSensorPresion "P-105").1 in
     let g2 := (agregarSensor gestor_vacio sT ≫= λ g1, agregarSensor g1 sP).1 in
     buscarSensor g2 "T-001" = Some 0%nat ∧ sensores g2 !! 0%nat = Some sT
     ∧ buscarSensor g2 "P-105" = Some 1%nat ∧ sensores g2 !! 1%nat = Some sP
     ∧ buscarSensor g2 "X-999" = None ∧ cantidad g2 = 2).
Proof.
  split; [|split; [|split]].
  - unfold agregarSensor. destruct (sensores g); reflexivity.
  - intros i. unfold buscarSensor. rewrite buscar_desde_Some, Nat.sub_0_r.
    split; [intros (_ & ? & ?); done|]. intros [? ?]. split; [lia|done].
  - apply buscar_desde_None.
  - vm_compute. repeat split.
Qed.

(** ** Claim C2: a kind code that is not recognised *)

(** C2, counterexample.  With "T-001" registered, the line "X,T-001,10"
    is not discarded: the reading 10 is added to "T-001".  And "Tx,Z-1,10"
    creates a temperature sensor although its kind is not one letter. *)
Lemma tipo_desconocido_contraejemplo :
  let g := (procesarLinea "T,T-001,45.3" gestor_vacio).1 in
  (procesarLinea "X,T-001,10" g).1 ≠ g
  ∧ (procesarLinea "X,T-001,10" g).1 =
      mkGestor [SensorTemperatura "T-001" (mkLista [453 # 10; 10 # 1] 2)] 1
  ∧ (procesarLinea "Tx,Z-1,10" gestor_vacio).1 =
      mkGestor [SensorTemperatura "Z-1" (mkLista [10 # 1] 1)] 1.
Proof. vm_compute. split; [discriminate|]. split; reflexivity. Qed.

(** C2, as the code does it.  For a line split into [tipo], [id], [v]:
    when [id] is not registered and [tipo] starts with neither 'T' nor
    'P', the line is dropped with the "unknown type" error and the
    registry is unchanged; when [id] is registered, whatever [tipo] says,
    the reading is added to that sensor and the count is unchanged. *)
Theorem tipo_no_reconocido (linea : string) (g : GestorSensores) (tipo id v : string) :
  campos linea = Some (tipo, id, v) →
  (buscarSensor g id = None →
   primer_caracter tipo ≠ Some "T"%char → primer_caracter tipo ≠ Some "P"%char →
   procesarLinea linea g = (g, [TipoDesconocido tipo]))
  ∧ (∀ i s, buscarSensor g id = Some i → sensores g !! i = Some s →
     procesarLinea linea g =
       (mkGestor (<[i := (agregarLectura s v).1]> (sensores g)) (cantidad g),
        (agregarLectura s v).2)).
Proof.
  intros Hc. unfold procesarLinea. rewrite Hc. unfold procesarCampos. split.
  - intros Hb HT HP. rewrite Hb.
    rewrite bool_decide_false by done. rewrite bool_decide_false by done. reflexivity.
  - intros i s Hb Hs. rewrite Hb. unfold actualizarEn. rewrite Hs.
    destruct (agregarLectura s v). simpl. by rewrite app_nil_r.
Qed.

Lemma tipo_no_reconocido_witness :
  campos "X,Z-1,10" = Some ("X", "Z-1", "10") ∧
  (buscarSensor gestor_vacio "Z-1" = None →
   primer_caracter "X" ≠ Some "T"%char → primer_caracter "X" ≠ Some "P"%char →
   procesarLinea "X,Z-1,10" gestor_vacio = (gestor_vacio, [TipoDesconocido "X"])).
Proof.
  split; [reflexivity|].
  exact (proj1 (tipo_no_reconocido "X,Z-1,10" gestor_vacio "X" "Z-1" "10" eq_refl)).
Defined.

(** ** Claim C8: a value with no number in it *)

Lemma atof_sin_conversion (v : string) :
  Conv.sin_conversion v = true → Conv.atof v = 0 # 1.
Proof.
  unfold Conv.sin_conversion, Conv.atof.
  destruct (Conv.signo _) as [sg r]. simpl.
  destruct r as [|c r]; [reflexivity|].
  intros Hs. repeat rewrite andb_true_iff in Hs. rewrite !negb_true_iff in Hs.
  destruct Hs as [[[Hd Hp] _] _].
  simpl. rewrite Hd.
  destruct (Ascii.eqb c "."%char) eqn:Ep; [|reflexivity].
  simpl in Hp. destruct r as [|d r]; [reflexivity|].
  simpl. rewrite Hp. reflexivity.
Qed.

Lemma atoi_sin_conversion (v : string) :
  Conv.sin_conversion v = true → Conv.atoi v = 0.
Proof.
  intros Hs. unfold Conv.atoi.
  enough (E : Conv.strtol v = 0) by (rewrite E; reflexivity).
  revert Hs. unfold Conv.sin_conversion, Conv.strtol.
  destruct (Conv.signo _) as [sg r]. simpl.
  destruct r as [|c r]; [simpl; rewrite Z.mul_0_r; reflexivity|].
  intros Hs. repeat rewrite andb_true_iff in Hs. rewrite !negb_true_iff in Hs.
  destruct Hs as [[[Hd _] _] _].
  simpl. rewrite Hd. rewrite Z.mul_0_r. reflexivity.
Qed.

Lemma agregarLectura_sin_conversion (s : Sensor) (v : string) :
  Conv.sin_conversion v = true → agregarLectura s v = agregarLectura s "0".
Proof.
  intros Hv. destruct s; unfold agregarLectura.
  - rewrite (atof_sin_conversion v Hv). reflexivity.
  - rewrite (atoi_sin_conversion v Hv). reflexivity.
Qed.

Lemma W_bind_congr {A B : Type} (m : W A) (f f' : A → W B) :
  (∀ a, f a = f' a) → m ≫= f = m ≫= f'.
Proof. intros Hf. destruct m as [a l]. unfold mbind, W_bind. by rewrite Hf. Qed.

Lemma actualizarEn_congr (g : GestorSensores) (i : nat) (f f' : Sensor → W Sensor) :
  (∀ s, f s = f' s) → actualizarEn g i f = actualizarEn g i f'.
Proof.
  intros Hf. unfold actualizarEn. destruct (sensores g !! i); [|done].
  by rewrite Hf.
Qed.

Lemma procesarCampos_congr (tipo id v1 v2 : string) (g : GestorSensores) :
  (∀ s, agregarLectura s v1 = agregarLectura s v2) →
  procesarCampos tipo id v1 g = procesarCampos tipo id v2 g.
Proof.
  intros Hag. unfold procesarCampos.
  destruct (buscarSensor g id); [by apply actualizarEn_congr|].
  repeat case_bool_decide; try done;
    apply W_bind_congr; intros s; apply W_bind_congr; intros [];
    apply W_bind_congr; intros g'; by apply actualizarEn_congr.
Qed.

Lemma W_bind_fst {A B : Type} (m : W A) (f : A → W B) : (m ≫= f).1 = (f m.1).1.
Proof. destruct m as [a l]. unfold mbind, W_bind. simpl. by destruct (f a). Qed.

Lemma agregarSensor_estado (g : GestorSensores) (s : Sensor) :
  (agregarSensor g s).1 = mkGestor (sensores g ++ [s]) (cantidad g + 1).
Proof. unfold agregarSensor. destruct (sensores g); reflexivity. Qed.

Lemma actualizarEn_final (l : list Sensor) (c : Z) (s : Sensor) (f : Sensor → W Sensor) :
  (actualizarEn (mkGestor (l ++ [s]) c) (length l) f).1 = mkGestor (l ++ [(f s).1]) c.
Proof.
  unfold actualizarEn. cbn [sensores cantidad].
  rewrite list_lookup_middle by done. cbv iota beta. rewrite W_bind_fst. simpl.
  rewrite <-(Nat.add_0_r (length l)), insert_app_r. done.
Qed.

Lemma procesarCampos_nuevo (tipo id v : string) (g : GestorSensores) (s : Sensor) :
  buscarSensor g id = None →
  (primer_caracter tipo = Some "T"%char ∧ s = (nuevoSensorTemperatura id).1
   ∨ primer_caracter tipo = Some "P"%char ∧ s = (nuevoSensorPresion id).1) →
  (procesarCampos tipo id v g).1 =
    mkGestor (sensores g ++ [(agregarLectura s v).1]) (cantidad g + 1).
Proof.
  intros Hb Hk. unfold procesarCampos. rewrite Hb.
  destruct Hk as [[HT ->]|[HP ->]].
  - rewrite bool_decide_true by done.
    rewrite !W_bind_fst, agregarSensor_estado. cbv beta. apply actualizarEn_final.
  - rewrite bool_decide_false by (rewrite HP; done). rewrite bool_decide_true by done.
    rewrite !W_bind_fst, agregarSensor_estado. cbv beta. apply actualizarEn_final.
Qed.

(** C8, counterexample.  "T,T-002,abc" gives exactly what "T,T-002,0"
    gives, registry and printed messages alike: the zero reading is added
    and printed like a genuine one, and no message reports the failed
    conversion. *)
Lemma lectura_degradada_sin_aviso :
  procesarLinea "T,T-002,abc" gestor_vacio = procesarLinea "T,T-002,0" gestor_vacio
  ∧ procesarLinea "T,T-002,abc" gestor_vacio =
      (mkGestor [SensorTemperatura "T-002" (mkLista [0 # 1] 1)] 1,
       [LogSensorBaseCreado "T-002"; LogListaCreada; LogTempInicializado "T-002";
        SerialNuevoTemp "T-002"; GestorPrimerSensor "T-002";
        LogPrimerNodo (VFloat (0 # 1)); LogTempLectura "T-002" (VFloat (0 # 1))]).
Proof. split; vm_compute; reflexivity. Qed.

(** C8, as the code does it.  For a line split into [tipo], [id], [v],
    with no NUL byte and an [id] of at most 49 bytes ([linea_c]: the
    name fits in [char nombre[50]]), where [v] has no number at its
    start ([strtod] and [strtol] convert nothing): the line is processed
    exactly as the same line with value
    "0" (same registry, same messages); the reading 0 is added to the
    registered sensor [id], or, when [id] is new and [tipo] starts with 'T'
    or 'P', to a new sensor of that kind appended to the registry. *)
Theorem valor_no_numerico (linea : string) (g : GestorSensores) (tipo id v : string) :
  campos linea = Some (tipo, id, v) → linea_c linea = true → Conv.sin_conversion v = true →
  procesarLinea linea g = procesarCampos tipo id "0" g
  ∧ (∀ i s, buscarSensor g id = Some i → sensores g !! i = Some s →
     (procesarLinea linea g).1 = mkGestor (<[i := anadir_cero s]> (sensores g)) (cantidad g))
  ∧ (buscarSensor g id = None → primer_caracter tipo = Some "T"%char →
     (procesarLinea linea g).1 =
       mkGestor (sensores g ++ [SensorTemperatura id (mkLista [0 # 1] 1)]) (cantidad g + 1))
  ∧ (buscarSensor g id = None → primer_caracter tipo = Some "P"%char →
     (procesarLinea linea g).1 =
       mkGestor (sensores g ++ [SensorPresion id (mkLista [0] 1)]) (cantidad g + 1)).
Proof.
  intros Hc _ Hv.
  assert (Heq : procesarLinea linea g = procesarCampos tipo id "0" g).
  { unfold procesarLinea. rewrite Hc. apply procesarCampos_congr.
    intros s. by apply agregarLectura_sin_conversion. }
  rewrite Heq. split; [done|]. split; [|split].
  - intros i s Hb Hs. unfold procesarCampos. rewrite Hb. unfold actualizarEn. rewrite Hs.
    rewrite W_bind_fst. simpl. f_equal. f_equal.
    destruct s as [n [xs t]|n [xs t]]; destruct xs; reflexivity.
  - intros Hb HT. rewrite (procesarCampos_nuevo _ _ _ _ _ Hb (or_introl (conj HT eq_refl))).
    reflexivity.
  - intros Hb HP. rewrite (procesarCampos_nuevo _ _ _ _ _ Hb (or_intror (conj HP eq_refl))).
    reflexivity.
Qed.

Lemma valor_no_numerico_witness :
  campos "T,T-002,abc" = Some ("T", "T-002", "abc") ∧ linea_c "T,T-002,abc" = true
  ∧ Conv.sin_conversion "abc" = true ∧
  (buscarSensor gestor_vacio "T-002" = None → primer_caracter "T" = Some "T"%char →
   (procesarLinea "T,T-002,abc" gestor_vacio).1 =
     mkGestor (sensores gestor_vacio ++ [SensorTemperatura "T-002" (mkLista [0 # 1] 1)])
       (cantidad gestor_vacio + 1)).
Proof.
  split; [reflexivity|]. split; [reflexivity|]. split; [reflexivity|].
  exact (proj1 (proj2 (proj2 (valor_no_numerico "T,T-002,abc" gestor_vacio "T" "T-002" "abc"
                                eq_refl eq_refl eq_refl)))).
Defined.

(** ** Claim C6: the serial line framer *)

Section framer.
Local Open Scope nat_scope.

Lemma length_hasta_nul (p : list ascii) : length (hasta_nul p) ≤ length p.
Proof. induction p as [|c p IH]; simpl; [lia|]. destruct (Ascii.eqb _ _); simpl; lia. Qed.

Lemma hasta_nul_sin_nul (p : list ascii) : "000"%char ∉ p → hasta_nul p = p.
Proof.
  induction p as [|c p IH]; intros Hn; [done|]. simpl.
  destruct (Ascii.eqb_spec c "000"%char) as [->|_]; [set_solver|].
  rewrite IH; [done|set_solver].
Qed.

Lemma length_string_of_list_ascii (l : list ascii) :
  String.length (String.string_of_list_ascii l) = length l.
Proof. induction l; simpl; auto. Qed.

Lemma strncpy_corto (p : list ascii) :
  length p ≤ 255 → strncpy 256 p = String.string_of_list_ascii (hasta_nul p).
Proof. intros Hp. unfold strncpy. rewrite take_ge; [done|]. pose proof (length_hasta_nul p). lia. Qed.

Lemma leerLinea_acotado (e : option ascii) (p : list ascii) :
  length p ≤ 255 →
  length (leerLinea e p).1 ≤ 255
  ∧ ∀ l, (leerLinea e p).2 = Some l → String.length l ≤ 255.
Proof.
  intros Hp. unfold leerLinea, leerLineaSerial.
  destruct e as [c|]; [|done].
  destruct (es_fin_de_linea c).
  - destruct (Nat.ltb_spec 0 (length p)); simpl; [|done].
    split; [lia|]. intros l [= <-].
    rewrite strncpy_corto, length_string_of_list_ascii by done.
    pose proof (length_hasta_nul p). lia.
  - destruct (Nat.ltb_spec (length p) 255); simpl; [|done].
    rewrite length_app. simpl. split; [lia|done].
Qed.

Lemma flujo_acotado (entradas : list (option ascii)) (p : list ascii) :
  length p ≤ 255 →
  length (flujo entradas p).1 ≤ 255
  ∧ Forall (λ l, String.length l ≤ 255) (flujo entradas p).2.
Proof.
  revert p. induction entradas as [|e r IH]; intros p Hp; simpl; [done|].
  pose proof (leerLinea_acotado e p Hp) as [H1 H2].
  destruct (leerLinea e p) as [p' out]. simpl in H1, H2.
  destruct (IH p' H1) as [H3 H4].
  destruct (flujo r p') as [pf lineas]. simpl in *.
  split; [done|]. destruct out as [l|]; [|done].
  constructor; [by apply H2|done].
Qed.

(** C6, counterexample.  A NUL byte is buffered like any other byte, and
    [strncpy] stops at it: after the bytes NUL and '\n' the framer emits
    the empty line while its buffer was not empty; after 'a', NUL, 'b',
    '\n' it emits "a", not the three buffered bytes. *)
Lemma leerLinea_nul_contraejemplo :
  leerLinea (Some "010"%char) ["000"%char] = ([], Some ""%string)
  ∧ flujo [Some "a"%char; Some "000"%char; Some "b"%char; Some "010"%char] [] = ([], ["a"%string]).
Proof. split; vm_compute; reflexivity. Qed.

(** C6, as the code does it.  With [p] the bytes buffered so far (at most
    255 of them, as in every state the framer reaches): a terminator
    ('\n' or '\r') on an empty buffer is ignored; on a non-empty buffer it
    empties the buffer and emits the buffered bytes up to the first NUL,
    which is the whole buffered line when it holds no NUL; any other byte,
    NUL included, is appended while fewer than 255 bytes are buffered and
    dropped otherwise; a failed read changes nothing.  Over any stream
    started from the empty buffer, the buffer never holds more than 255
    bytes and no emitted line is longer than 255. *)
Theorem leerLinea_pasos (c : ascii) (p : list ascii) (Hp : length p ≤ 255) :
  (es_fin_de_linea c = true → p = [] → leerLinea (Some c) p = ([], None))
  ∧ (es_fin_de_linea c = true → p ≠ [] →
     leerLinea (Some c) p = ([], Some (String.string_of_list_ascii (hasta_nul p))))
  ∧ (es_fin_de_linea c = true → p ≠ [] → "000"%char ∉ p →
     leerLinea (Some c) p = ([], Some (String.string_of_list_ascii p)))
  ∧ (es_fin_de_linea c = false → length p < 255 → leerLinea (Some c) p = (p ++ [c], None))
  ∧ (es_fin_de_linea c = false → 255 ≤ length p → leerLinea (Some c) p = (p, None))
  ∧ leerLinea None p = (p, None)
  ∧ (∀ entradas, length (flujo entradas []).1 ≤ 255
       ∧ Forall (λ l, String.length l ≤ 255) (flujo entradas []).2).
Proof.
  assert (Hlinea : es_fin_de_linea c = true → p ≠ [] →
     leerLinea (Some c) p = ([], Some (String.string_of_list_ascii (hasta_nul p)))).
  { intros Hc Hne. unfold leerLinea, leerLineaSerial. rewrite Hc.
    destruct p as [|b p]; [done|]. simpl. by rewrite strncpy_corto. }
  split; [|split; [done|split; [|split; [|split; [|split]]]]].
  - intros Hc ->. unfold leerLinea, leerLineaSerial. by rewrite Hc.
  - intros Hc Hne Hn. rewrite Hlinea by done. by rewrite hasta_nul_sin_nul.
  - intros Hc Hl. unfold leerLinea, leerLineaSerial. rewrite Hc.
    by destruct (Nat.ltb_spec (length p) 255); [|lia].
  - intros Hc Hl. unfold leerLinea, leerLineaSerial. rewrite Hc.
    by destruct (Nat.ltb_spec (length p) 255); [lia|].
  - done.
  - intros entradas. apply flujo_acotado. simpl. lia.
Qed.

Lemma leerLinea_pasos_witness :
  length ["a"%char; "b"%char] ≤ 255 ∧
  leerLinea (Some "010"%char) ["a"%char; "b"%char] =
    ([], Some (String.string_of_list_ascii (hasta_nul ["a"%char; "b"%char]))).
Proof.
  split; [simpl; lia|].
  exact (proj1 (proj2 (leerLinea_pasos "010"%char ["a"%char; "b"%char] ltac:(simpl; lia)))
           eq_refl ltac:(discriminate)).
Defined.

End framer.

(** ** The pointer-level lists *)
Module HeapPruebas.
Import Heap.

Section cadenas.
Context {T : Type} `{Numero T}.
Local Open Scope nat_scope.
Implicit Types (m : gmap loc (Nodo T)) (ls : list loc).

Lemma cadena_det m p ls1 ls2 : cadena m p ls1 → cadena m p ls2 → ls1 = ls2.
Proof.
  intros H1. revert ls2.
  induction H1 as [|l n ls Hl Hn Hc IH]; intros ls2 H2; inversion H2 as [|l' n' ls' Hl' Hn' Hc']; subst; [done|].
  rewrite Hl in Hl'. injection Hl' as <-. f_equal. by apply IH.
Qed.

Lemma cadena_lookup m p ls l : cadena m p ls → l ∈ ls → is_Some (m !! l).
Proof.
  induction 1 as [|l' n ls Hl Hn Hc IH]; [set_solver|].
  rewrite elem_of_cons. intros [->|Hin]; [by eexists|auto].
Qed.

Lemma cadena_dom m p ls : cadena m p ls → ∀ l, l ∈ ls → l ∈ dom m.
Proof. intros Hc l Hl. apply elem_of_dom. by eapply cadena_lookup. Qed.

Lemma cadena_NoDup m p ls : cadena m p ls → NoDup ls.
Proof. induction 1; constructor; done. Qed.

Lemma cadena_length m p ls : cadena m p ls → length ls ≤ size m.
Proof.
  intros Hc. rewrite <-(size_list_to_set (C:=gset loc) ls) by (by eapply cadena_NoDup).
  rewrite <-size_dom. apply subseteq_size.
  intros l. rewrite elem_of_list_to_set. by apply cadena_dom with p.
Qed.

Lemma cadena_frame m m' p ls :
  cadena m p ls → (∀ l, l ∈ ls → m' !! l = m !! l) → cadena m' p ls.
Proof.
  induction 1 as [|l n ls Hl Hn Hc IH]; intros Hf; [constructor|].
  apply cadena_cons with n; [rewrite Hf; [done|set_solver]|done|].
  apply IH. intros l' Hl'. apply Hf. set_solver.
Qed.

Lemma cadena_None m ls : cadena m None ls → ls = [].
Proof. by inversion 1. Qed.

Lemma cadena_vacia m p ls : cadena m p ls → (p = None ↔ ls = []).
Proof. destruct 1; split; done. Qed.

Lemma valores_cons m l n ls : m !! l = Some n → valores m (l :: ls) = dato n :: valores m ls.
Proof. intros Hl. unfold valores. simpl. by rewrite Hl. Qed.

Lemma valores_frame m m' ls :
  (∀ l, l ∈ ls → m' !! l = m !! l) → valores m' ls = valores m ls.
Proof.
  unfold valores. induction ls as [|l ls IH]; intros Hf; [done|]. simpl.
  rewrite Hf by set_solver.
  assert (IH' : omap (λ l, dato <$> m' !! l) ls = omap (λ l, dato <$> m !! l) ls).
  { apply IH. intros l' Hl'. apply Hf. set_solver. }
  destruct (dato <$> m !! l); [f_equal|]; exact IH'.
Qed.

Lemma valores_app m ls1 ls2 : valores m (ls1 ++ ls2) = valores m ls1 ++ valores m ls2.
Proof.
  unfold valores. induction ls1 as [|l ls1 IH]; [done|]. simpl.
  destruct (dato <$> m !! l); [|exact IH]. simpl. f_equal. exact IH.
Qed.

Lemma recorrer_cadena fuel m p ls :
  cadena m p ls → length ls < fuel → recorrer fuel m p = Some (valores m ls).
Proof.
  intros Hc. revert fuel.
  induction Hc as [|l n ls Hl Hn Hc IH]; intros fuel Hf; [by destruct fuel|].
  destruct fuel as [|f]; [simpl in Hf; lia|]. simpl in Hf.
  simpl. rewrite Hl. simpl. rewrite IH by lia. done.
Qed.

Lemma imprimir_cadena m L ls :
  cadena m (cabeza L) ls → imprimir m L = Some (valores m ls).
Proof.
  intros Hc. unfold imprimir, combustible. apply recorrer_cadena with (1 := Hc).
  pose proof (cadena_length _ _ _ Hc). lia.
Qed.

Lemma valores_frame_dato m m' ls :
  (∀ l, l ∈ ls → dato <$> m' !! l = dato <$> m !! l) → valores m' ls = valores m ls.
Proof.
  unfold valores. induction ls as [|l ls IH]; intros Hf; [done|]. simpl.
  rewrite Hf by set_solver.
  assert (IH' : omap (λ l, dato <$> m' !! l) ls = omap (λ l, dato <$> m !! l) ls).
  { apply IH. intros l' Hl'. apply Hf. set_solver. }
  destruct (dato <$> m !! l); [f_equal|]; exact IH'.
Qed.

Lemma ultimo_cadena fuel m c ls :
  cadena m (Some c) ls → length ls ≤ fuel →
  ∃ pre u nu, ls = pre ++ [u] ∧ ultimo fuel m c = Some u
              ∧ m !! u = Some nu ∧ siguiente nu = None.
Proof.
  revert c fuel. induction ls as [|x ls IH]; intros c fuel Hc Hf; [inversion Hc|].
  inversion Hc as [|c' n ls' Hl Hn Hc' ]; subst.
  destruct fuel as [|f]; [simpl in Hf; lia|]. simpl in Hf.
  simpl. rewrite Hl. simpl.
  destruct (siguiente n) as [s|] eqn:Es.
  - destruct (IH s f Hc') as (pre & u & nu & -> & Hu & Hlu & Hnu); [lia|].
    exists (x :: pre), u, nu. done.
  - apply cadena_None in Hc' as ->. by exists [], x, n.
Qed.

Lemma cadena_snoc m m' p pre u nu l v :
  cadena m p (pre ++ [u]) → m !! u = Some nu →
  (∀ x, x ∈ pre → m' !! x = m !! x) →
  m' !! u = Some (mkNodo (dato nu) (Some l)) → m' !! l = Some (mkNodo v None) →
  l ∉ pre ++ [u] → cadena m' p ((pre ++ [u]) ++ [l]).
Proof.
  revert p. induction pre as [|x pre IH]; intros p Hc Hu Hf Hu' Hl' Hnl; simpl in *.
  - inversion Hc as [|u' n ls Hl Hn Hc']; subst.
    apply cadena_cons with (mkNodo (dato nu) (Some l)); [done|set_solver|].
    simpl. apply cadena_cons with (mkNodo v None); [done|set_solver|constructor].
  - inversion Hc as [|x' n ls Hl Hn Hc']; subst.
    apply cadena_cons with n; [rewrite Hf; [done|set_solver]|set_solver|].
    apply IH; auto; [|set_solver]. intros y Hy. apply Hf. set_solver.
Qed.

Lemma insertarAlFinal_spec m L v ls :
  cadena m (cabeza L) ls →
  ∃ l m' L', insertarAlFinal m L v = Some (m', L')
    ∧ tamano L' = (tamano L + 1)%Z ∧ (l ∉ dom m)
    ∧ cadena m' (cabeza L') (ls ++ [l])
    ∧ (∀ x, x ∉ ls → x ≠ l → m' !! x = m !! x)
    ∧ valores m' (ls ++ [l]) = valores m ls ++ [v].
Proof.
  intros Hc. unfold insertarAlFinal, nuevo.
  set (l := fresh (dom m)). set (m1 := <[l:=mkNodo v None]> m).
  assert (Hl : l ∉ dom m) by apply is_fresh.
  assert (Hlls : l ∉ ls) by (intros Hin; apply Hl; by eapply cadena_dom).
  assert (Hm1 : ∀ x, x ≠ l → m1 !! x = m !! x) by (intros; by apply lookup_insert_ne).
  assert (Hc1 : cadena m1 (cabeza L) ls).
  { apply cadena_frame with m; [done|]. intros x Hx. apply Hm1. by intros ->. }
  destruct (cabeza L) as [c|] eqn:Ecab.
  - destruct (ultimo_cadena (combustible m1) m1 c ls Hc1) as (pre & u & nu & Hls & Hu & Hlu & Hnu).
    { pose proof (cadena_length _ _ _ Hc1). unfold combustible. lia. }
    rewrite Hu. simpl. rewrite Hlu. simpl.
    assert (Hul : u ≠ l) by (intros ->; apply Hlls; rewrite Hls; set_solver).
    set (m' := <[u:=mkNodo (dato nu) (Some l)]> m1).
    exists l, m', (mkLista (Some c) (tamano L + 1)). simpl.
    split; [done|]. split; [done|]. split; [done|]. split; [|split].
    + rewrite Hls. apply cadena_snoc with m1 nu v.
      * by rewrite <-Hls.
      * done.
      * intros x Hx. apply lookup_insert_ne. intros Hux. rewrite <-Hux in Hx.
        pose proof (cadena_NoDup _ _ _ Hc1) as Hnd. rewrite Hls in Hnd.
        apply NoDup_app in Hnd as (_ & Hd & _). specialize (Hd u Hx). set_solver.
      * apply lookup_insert_eq.
      * unfold m'. rewrite lookup_insert_ne by done. apply lookup_insert_eq.
      * by rewrite <-Hls.
    + intros x Hx Hxl. unfold m'. rewrite lookup_insert_ne.
      * by apply Hm1.
      * intros ->. apply Hx. rewrite Hls. set_solver.
    + rewrite !valores_app. f_equal.
      * apply valores_frame_dato. intros x Hx. unfold m'.
        destruct (decide (x = u)) as [->|Hxu].
        -- rewrite lookup_insert_eq, <-(Hm1 u Hul), Hlu. done.
        -- rewrite lookup_insert_ne, Hm1 by (done || (intros ->; contradiction)). done.
      * unfold valores. simpl. unfold m'. rewrite lookup_insert_ne by done.
        unfold m1. rewrite lookup_insert_eq. done.
  - apply cadena_None in Hc as ->. simpl.
    exists l, m1, (mkLista (Some l) (tamano L + 1)). simpl.
    split; [done|]. split; [done|]. split; [done|]. split; [|split].
    + apply cadena_cons with (mkNodo v None); [apply lookup_insert_eq|set_solver|constructor].
    + intros x _ Hx. by apply Hm1.
    + unfold valores. simpl. unfold m1. rewrite lookup_insert_eq. done.
Qed.

Lemma liberar_cadena fuel m p ls :
  cadena m p ls → length ls ≤ fuel →
  ∃ m', liberar fuel m p = Some m' ∧ ∀ x, m' !! x = if decide (x ∈ ls) then None else m !! x.
Proof.
  revert m p fuel. induction ls as [|a ls IH]; intros m p fuel Hc Hf.
  - apply cadena_vacia in Hc. destruct Hc as [_ Hp]. rewrite Hp by done.
    exists m. split; [by destruct fuel|]. intros x. rewrite decide_False by set_solver. done.
  - inversion Hc as [|a' n ls' Hl Hn Hc']; subst.
    destruct fuel as [|f]; [simpl in Hf; lia|]. simpl in Hf.
    assert (Hc2 : cadena (delete a m) (siguiente n) ls).
    { apply cadena_frame with m; [done|]. intros x Hx. apply lookup_delete_ne. by intros ->. }
    destruct (IH _ _ f Hc2) as (m' & Hlib & Hm'); [lia|].
    exists m'. split; [simpl; by rewrite Hl|].
    intros x. rewrite Hm'. destruct (decide (x = a)) as [->|Hxa].
    + rewrite lookup_delete_eq.
      destruct (decide (a ∈ ls)), (decide (a ∈ a :: ls)); try done; exfalso; set_solver.
    + rewrite lookup_delete_ne by done.
      destruct (decide (x ∈ ls)), (decide (x ∈ a :: ls)); try done; exfalso; set_solver.
Qed.

Lemma copiar_desde_spec fuel m L p ld ls :
  cadena m (cabeza L) ld → cadena m p ls → ld ## ls → length ls ≤ fuel →
  ∃ m' L' ln, copiar_desde fuel m L p = Some (m', L')
    ∧ cadena m' (cabeza L') (ld ++ ln)
    ∧ tamano L' = (tamano L + Z.of_nat (length ls))%Z
    ∧ valores m' (ld ++ ln) = valores m ld ++ valores m ls
    ∧ (∀ x, x ∈ ln → x ∉ dom m)
    ∧ (∀ x, x ∉ ld ++ ln → m' !! x = m !! x)
    ∧ length ln = length ls.
Proof.
  revert m L p ld fuel. induction ls as [|a ls IH]; intros m L p ld fuel Hd Hs Hdis Hf.
  - apply cadena_vacia in Hs. destruct Hs as [_ Hp]. rewrite Hp by done.
    exists m, L, []. split; [by destruct fuel|].
    rewrite !app_nil_r. split; [done|]. split; [simpl; lia|]. split; [done|]. split; [set_solver|].
    split; [set_solver|done].
  - inversion Hs as [|a' n ls' Hl Hn Hs']; subst.
    destruct fuel as [|f]; [simpl in Hf; lia|]. simpl in Hf.
    destruct (insertarAlFinal_spec m L (dato n) ld Hd)
      as (l & m1 & L1 & Hins & Htam & Hfresh & Hc1 & Hm1 & Hval1).
    assert (Hdom : ∀ x, x ∈ ls → x ∈ dom m) by (intros x Hx; eapply cadena_dom; [exact Hs|set_solver]).
    assert (Hs1 : cadena m1 (siguiente n) ls).
    { apply cadena_frame with m; [done|]. intros x Hx. apply Hm1.
      - set_solver.
      - intros ->. apply Hfresh. by apply Hdom. }
    destruct (IH m1 L1 (siguiente n) (ld ++ [l]) f Hc1 Hs1)
      as (m' & L' & ln & Hcop & Hc' & Htam' & Hval' & Hfresh' & Hm' & Hlen'); [|lia|].
    { assert (l ∉ ls) by (intros Hin; apply Hfresh; by apply Hdom). set_solver. }
    assert (Hls1 : valores m1 ls = valores m ls).
    { apply valores_frame. intros x Hx. apply Hm1; [set_solver|].
      intros ->. apply Hfresh. by apply Hdom. }
    exists m', L', (l :: ln). split; [simpl; rewrite Hl; simpl; by rewrite Hins|].
    replace (ld ++ l :: ln) with ((ld ++ [l]) ++ ln) by (by rewrite <-app_assoc).
    split; [done|]. split; [simpl length; lia|]. split; [|split].
    + rewrite Hval', Hval1, Hls1, (valores_cons m a n ls Hl). by rewrite <-app_assoc.
    + intros x Hx. apply elem_of_cons in Hx as [->|Hx]; [done|].
      intros Hxd. apply (Hfresh' x Hx). apply elem_of_dom.
      destruct (decide (x ∈ ld)) as [Hxl|Hxl].
      * eapply cadena_lookup; [exact Hc1|set_solver].
      * rewrite Hm1; [by apply elem_of_dom|done|]. intros ->. set_solver.
    + split; [|simpl; lia]. intros x Hx. rewrite Hm' by set_solver. apply Hm1; set_solver.
Qed.

Lemma NoDup_medio (pre post : list loc) a b :
  NoDup (pre ++ a :: b :: post) → a ≠ b ∧ (a ∉ pre ++ post) ∧ (b ∉ pre ++ post).
Proof.
  rewrite NoDup_app, !NoDup_cons. intros (_ & Hd & (Ha & Hb & _)).
  split; [set_solver|]. rewrite !elem_of_app.
  split; intros [Hx|Hx]; set_solver.
Qed.

Lemma escanear_spec m ls fuel rest pre mn am act :
  ls = pre ++ rest → (∀ x, x ∈ ls → is_Some (m !! x)) → cadena m act rest →
  (am = None ∧ (∃ post, ls = mn :: post)
   ∨ ∃ pre' a post, am = Some a ∧ ls = pre' ++ a :: mn :: post) →
  length rest ≤ fuel →
  ∃ mn' am', escanear fuel m mn am (last pre) act = Some (mn', am')
    ∧ (am' = None ∧ (∃ post, ls = mn' :: post)
       ∨ ∃ pre' a post, am' = Some a ∧ ls = pre' ++ a :: mn' :: post).
Proof.
  revert pre mn am act fuel.
  induction rest as [|a rest IH]; intros pre mn am act fuel Hls Hdom Hc HP Hf.
  - apply cadena_vacia in Hc. destruct Hc as [_ Hact]. rewrite Hact by done.
    exists mn, am. split; [by destruct fuel|done].
  - inversion Hc as [|a' na rest' Hla Hna Hc']; subst act.
    destruct fuel as [|f]; [simpl in Hf; lia|]. simpl in Hf.
    assert (Hmn : mn ∈ ls).
    { destruct HP as [(_ & post & ->)|(pre' & b & post & _ & ->)]; set_solver. }
    destruct (Hdom mn Hmn) as [nmin Hmin].
    simpl. rewrite Hla. simpl. rewrite Hmin. simpl.
    assert (Hls' : ls = (pre ++ [a]) ++ rest) by (rewrite Hls, <-app_assoc; done).
    pose proof (last_snoc a pre) as Hlast.
    destruct (menor (dato na) (dato nmin)).
    + rewrite <-Hlast. apply IH; [done|done|done| |lia].
      destruct (last pre) as [y|] eqn:Ey.
      * right. apply last_Some in Ey as [pre' ->].
        exists pre', y, rest. split; [done|]. rewrite Hls, <-app_assoc. done.
      * left. split; [done|]. apply last_None in Ey as ->. by exists rest.
    + rewrite <-Hlast. apply IH; [done|done|done|done|lia].
Qed.

Lemma cadena_quitar m m' p pre a mn post na nmn :
  cadena m p (pre ++ a :: mn :: post) → m !! a = Some na → m !! mn = Some nmn →
  m' !! a = Some (mkNodo (dato na) (siguiente nmn)) →
  (∀ x, x ∈ pre ++ post → m' !! x = m !! x) →
  cadena m' p (pre ++ a :: post).
Proof.
  revert p. induction pre as [|x pre IH]; intros p Hc Ha Hmn Ha' Hf; simpl in *.
  - inversion Hc as [|a' n0 ls Hl Hn Hc']; subst.
    assert (n0 = na) as -> by congruence.
    inversion Hc' as [|mn' n1 ls1 Hl1 Hn1 Hc1 Hsig].
    assert (n1 = nmn) as -> by congruence.
    apply cadena_cons with (mkNodo (dato na) (siguiente nmn)); [done|set_solver|].
    simpl. apply cadena_frame with m; [done|]. intros y Hy. apply Hf. done.
  - inversion Hc as [|x' n ls Hl Hn Hc']; subst.
    apply cadena_cons with n; [rewrite Hf; [done|set_solver]|set_solver|].
    apply IH; auto. intros y Hy. apply Hf. set_solver.
Qed.

Lemma eliminarMinimo_spec m L c ls :
  cabeza L = Some c → cadena m (Some c) ls →
  ∃ v m' L' ls', eliminarMinimo m L = Some (v, m', L')
    ∧ cadena m' (cabeza L') ls' ∧ tamano L' = (tamano L - 1)%Z
    ∧ S (length ls') = length ls ∧ (∀ x, x ∈ ls' → x ∈ ls)
    ∧ (∀ x, x ∉ ls → m' !! x = m !! x).
Proof.
  intros Hcab Hc. unfold eliminarMinimo. rewrite Hcab.
  pose proof (cadena_NoDup _ _ _ Hc) as Hnd.
  assert (Hdom : ∀ x, x ∈ ls → is_Some (m !! x)) by (intros; by eapply cadena_lookup).
  inversion Hc as [|c' nc post Hlc Hnc Hcpost]; subst ls.
  destruct (escanear_spec m (c :: post) (combustible m) (c :: post) [] c None (Some c))
    as (mn & am & Hesc & HP); [done|done|done|left; split; [done|by exists post]| |].
  { pose proof (cadena_length _ _ _ Hc). unfold combustible. lia. }
  change (last (@nil loc)) with (@None loc) in Hesc. rewrite Hesc. simpl.
  assert (Hmn : mn ∈ c :: post).
  { destruct HP as [(_ & post' & Hl)|(pre' & b & post' & _ & Hl)]; rewrite Hl; set_solver. }
  destruct (Hdom mn Hmn) as [nmin Hmin]. rewrite Hmin. simpl.
  case_bool_decide as Hmc.
  - subst mn. assert (nmin = nc) as -> by congruence.
    exists (dato nc), (delete c m), (mkLista (siguiente nc) (tamano L - 1)), post.
    split; [done|]. simpl. split; [|split; [done|split; [done|split; [set_solver|]]]].
    + apply cadena_frame with m; [done|]. intros x Hx. apply lookup_delete_ne. by intros ->.
    + intros x Hx. apply lookup_delete_ne. intros ->. set_solver.
  - destruct HP as [(_ & post' & Hl)|(pre & a & post' & -> & Hl)]; [congruence|].
    simpl. assert (Ha : a ∈ c :: post) by (rewrite Hl; set_solver).
    destruct (Hdom a Ha) as [na Hna]. rewrite Hna. simpl.
    rewrite Hl in Hnd. destruct (NoDup_medio _ _ _ _ Hnd) as (Hamn & Hapre & Hmnpre).
    set (m' := delete mn (<[a:=mkNodo (dato na) (siguiente nmin)]> m)).
    exists (dato nmin), m', (mkLista (Some c) (tamano L - 1)), (pre ++ a :: post').
    split; [done|]. simpl. split; [|split; [done|split; [|split]]].
    + rewrite <-Hcab. apply cadena_quitar with m mn na nmin.
      * rewrite Hcab, <-Hl. done.
      * done.
      * done.
      * unfold m'. rewrite lookup_delete_ne by done. apply lookup_insert_eq.
      * intros x Hx. unfold m'. rewrite lookup_delete_ne by (intros ->; contradiction).
        apply lookup_insert_ne. intros ->. contradiction.
    + change (S (length post)) with (length (c :: post)). rewrite Hl, !length_app. simpl. lia.
    + intros x Hx. rewrite Hl. set_solver.
    + intros x Hx. unfold m'. rewrite Hl in Hx.
      rewrite lookup_delete_ne by (intros ->; set_solver).
      apply lookup_insert_ne. intros ->. set_solver.
Qed.

Lemma copia_resultado m0 Ls lss :
  cadena m0 (cabeza Ls) lss →
  ∃ m' L' ln, copiar_desde (combustible m0) m0 (mkLista None 0) (cabeza Ls) = Some (m', L')
    ∧ cadena m' (cabeza L') ln ∧ tamano L' = Z.of_nat (length lss)
    ∧ valores m' ln = valores m0 lss
    ∧ (∀ x, x ∈ ln → x ∉ dom m0) ∧ (∀ x, x ∉ ln → m' !! x = m0 !! x)
    ∧ length ln = length lss.
Proof.
  intros Hs.
  destruct (copiar_desde_spec (combustible m0) m0 (mkLista None 0) (cabeza Ls) [] lss)
    as (m' & L' & ln & Hcop & Hc & Htam & Hval & Hfresh & Hm & Hlen);
    [constructor|done|set_solver|pose proof (cadena_length _ _ _ Hs); unfold combustible; lia|].
  exists m', L', ln. simpl in *. split; [done|]. split; [done|]. split; [lia|]. done.
Qed.

Lemma bf_cadena (w : Mundo T) o L :
  bien_formado w → objetos w !! o = Some L →
  ∃ ls, cadena (memoria w) (cabeza L) ls ∧ tamano L = Z.of_nat (length ls).
Proof. intros [Hc _]. apply Hc. Qed.

Lemma bf_inicio : bien_formado (mkMundo (T:=T) ∅ ∅).
Proof. split; simpl; intros *; rewrite ?lookup_empty; done. Qed.

(** The objects other than [o] keep their nodes when the nodes of [o]
    ([lsold]) are released or relinked and fresh nodes are added. *)
Lemma otro_disjunto (w : Mundo T) o lsold o2 L2 ls2 :
  bien_formado w →
  (objetos w !! o = None → lsold = []) →
  (∀ L, objetos w !! o = Some L → cadena (memoria w) (cabeza L) lsold) →
  o2 ≠ o → objetos w !! o2 = Some L2 → cadena (memoria w) (cabeza L2) ls2 →
  ls2 ## lsold.
Proof.
  intros [_ Hd] Hnone Hold Ho2 HL2 Hc2.
  destruct (objetos w !! o) as [L|] eqn:Eo.
  - eapply Hd; [exact Ho2|exact HL2|exact Eo|exact Hc2|by apply Hold].
  - rewrite Hnone by done. set_solver.
Qed.

Lemma bf_objeto (w : Mundo T) o m' L' lsold ls' :
  bien_formado w →
  (objetos w !! o = None → lsold = []) →
  (∀ L, objetos w !! o = Some L → cadena (memoria w) (cabeza L) lsold) →
  (∀ x, x ∈ dom (memoria w) → x ∉ lsold → m' !! x = memoria w !! x) →
  (∀ x, x ∈ ls' → x ∈ lsold ∨ x ∉ dom (memoria w)) →
  cadena m' (cabeza L') ls' → tamano L' = Z.of_nat (length ls') →
  bien_formado (mkMundo m' (<[o:=L']> (objetos w)))
  ∧ ∀ o2 L2 ls2, o2 ≠ o → objetos w !! o2 = Some L2 → cadena (memoria w) (cabeza L2) ls2 →
      ∀ x, x ∈ ls2 → m' !! x = memoria w !! x.
Proof.
  intros Hbf Hnone Hold Hm Hnew Hc' Htam'.
  assert (Hfr : ∀ o2 L2 ls2, o2 ≠ o → objetos w !! o2 = Some L2 →
            cadena (memoria w) (cabeza L2) ls2 → ∀ x, x ∈ ls2 → m' !! x = memoria w !! x).
  { intros o2 L2 ls2 Ho2 HL2 Hc2 x Hx. apply Hm; [by eapply cadena_dom|].
    pose proof (otro_disjunto w o lsold o2 L2 ls2 Hbf Hnone Hold Ho2 HL2 Hc2). set_solver. }
  assert (Hotro : ∀ o2 L2 ls, o2 ≠ o → objetos w !! o2 = Some L2 → cadena m' (cabeza L2) ls →
            cadena (memoria w) (cabeza L2) ls ∧ ls ## ls').
  { intros o2 L2 ls Ho2 HL2 Hc.
    destruct (bf_cadena w o2 L2 Hbf HL2) as (ls2 & Hc2 & _).
    pose proof (cadena_frame _ _ _ _ Hc2 (Hfr o2 L2 ls2 Ho2 HL2 Hc2)) as Hc2'.
    rewrite (cadena_det _ _ _ _ Hc Hc2'). split; [done|].
    pose proof (otro_disjunto w o lsold o2 L2 ls2 Hbf Hnone Hold Ho2 HL2 Hc2) as Hdis.
    intros x Hx2 Hx'. destruct (Hnew x Hx') as [Hxo|Hxd]; [set_solver|].
    apply Hxd. by eapply cadena_dom. }
  split; [|done]. split; simpl.
  - intros o2 L2 HL2. destruct (decide (o2 = o)) as [->|Ho2].
    + rewrite lookup_insert_eq in HL2. injection HL2 as <-. by exists ls'.
    + rewrite lookup_insert_ne in HL2 by done.
      destruct (bf_cadena w o2 L2 Hbf HL2) as (ls2 & Hc2 & Ht2).
      exists ls2. split; [|done]. apply cadena_frame with (memoria w); [done|].
      by apply (Hfr o2 L2 ls2).
  - intros o1 o2 L1 L2 ls1 ls2 Ho12 HL1 HL2 Hc1 Hc2.
    destruct (decide (o1 = o)) as [->|Ho1]; [|destruct (decide (o2 = o)) as [->|Ho2]].
    + rewrite lookup_insert_eq in HL1. injection HL1 as <-.
      rewrite lookup_insert_ne in HL2 by done.
      rewrite (cadena_det _ _ _ _ Hc1 Hc').
      destruct (Hotro o2 L2 ls2 (not_eq_sym Ho12) HL2 Hc2) as [_ Hdis]. set_solver.
    + rewrite lookup_insert_eq in HL2. injection HL2 as <-.
      rewrite lookup_insert_ne in HL1 by done.
      rewrite (cadena_det _ _ _ _ Hc2 Hc'). by apply (Hotro o1 L1).
    + rewrite lookup_insert_ne in HL1, HL2 by done.
      destruct (Hotro o1 L1 ls1 Ho1 HL1 Hc1) as [Hc1m _].
      destruct (Hotro o2 L2 ls2 Ho2 HL2 Hc2) as [Hc2m _].
      destruct Hbf as [_ Hd]. exact (Hd o1 o2 L1 L2 ls1 ls2 Ho12 HL1 HL2 Hc1m Hc2m).
Qed.

Lemma bf_destruir (w : Mundo T) o L m' lsold :
  bien_formado w → objetos w !! o = Some L → cadena (memoria w) (cabeza L) lsold →
  (∀ x, x ∉ lsold → m' !! x = memoria w !! x) →
  bien_formado (mkMundo m' (delete o (objetos w)))
  ∧ ∀ o2 L2 ls2, o2 ≠ o → objetos w !! o2 = Some L2 → cadena (memoria w) (cabeza L2) ls2 →
      ∀ x, x ∈ ls2 → m' !! x = memoria w !! x.
Proof.
  intros Hbf HL Hc Hm.
  assert (Hfr : ∀ o2 L2 ls2, o2 ≠ o → objetos w !! o2 = Some L2 →
            cadena (memoria w) (cabeza L2) ls2 → ∀ x, x ∈ ls2 → m' !! x = memoria w !! x).
  { intros o2 L2 ls2 Ho2 HL2 Hc2 x Hx. apply Hm.
    destruct Hbf as [_ Hd]. pose proof (Hd o2 o L2 L ls2 lsold Ho2 HL2 HL Hc2 Hc). set_solver. }
  assert (Hotro : ∀ o2 L2 ls, o2 ≠ o → objetos w !! o2 = Some L2 → cadena m' (cabeza L2) ls →
            cadena (memoria w) (cabeza L2) ls).
  { intros o2 L2 ls Ho2 HL2 Hc2'.
    destruct (bf_cadena w o2 L2 Hbf HL2) as (ls2 & Hc2 & _).
    pose proof (cadena_frame _ _ _ _ Hc2 (Hfr o2 L2 ls2 Ho2 HL2 Hc2)) as Hc2m.
    by rewrite (cadena_det _ _ _ _ Hc2' Hc2m). }
  split; [|done]. split; simpl.
  - intros o2 L2 HL2. destruct (decide (o2 = o)) as [->|Ho2]; [by rewrite lookup_delete_eq in HL2|].
    rewrite lookup_delete_ne in HL2 by done.
    destruct (bf_cadena w o2 L2 Hbf HL2) as (ls2 & Hc2 & Ht2).
    exists ls2. split; [|done]. apply cadena_frame with (memoria w); [done|].
    by apply (Hfr o2 L2 ls2).
  - intros o1 o2 L1 L2 ls1 ls2 Ho12 HL1 HL2 Hc1 Hc2.
    destruct (decide (o1 = o)) as [->|Ho1]; [by rewrite lookup_delete_eq in HL1|].
    destruct (decide (o2 = o)) as [->|Ho2]; [by rewrite lookup_delete_eq in HL2|].
    rewrite lookup_delete_ne in HL1, HL2 by done.
    destruct Hbf as [Hb Hd].
    exact (Hd o1 o2 L1 L2 ls1 ls2 Ho12 HL1 HL2 (Hotro o1 L1 ls1 Ho1 HL1 Hc1) (Hotro o2 L2 ls2 Ho2 HL2 Hc2)).
Qed.

Lemma paso_spec (w w' : Mundo T) op :
  bien_formado w → paso w op = Some w' →
  bien_formado w'
  ∧ ∀ o2 L2 ls2, o2 ≠ objetivo op → objetos w !! o2 = Some L2 →
      cadena (memoria w) (cabeza L2) ls2 →
      objetos w' !! o2 = Some L2 ∧ ∀ x, x ∈ ls2 → memoria w' !! x = memoria w !! x.
Proof.
  intros Hbf Hp. destruct w as [m objs].
  destruct op as [o|o v|o|o src|o src|o]; cbn [paso memoria objetos objetivo] in Hp |- *.
  - (* Construir *)
    destruct (objs !! o) eqn:Eo; [discriminate|]. injection Hp as <-.
    destruct (bf_objeto (mkMundo m objs) o m (mkLista None 0) [] []) as [Hbf' Hfr];
      simpl; try done; [intros L HL; congruence|set_solver|constructor|].
    split; [done|]. intros o2 L2 ls2 Ho2 HL2 Hc2. simpl.
    split; [by rewrite lookup_insert_ne|]. by apply (Hfr o2 L2 ls2).
  - (* Insertar *)
    destruct (objs !! o) as [L|] eqn:Eo; cbn [mbind option_bind] in Hp; [|discriminate].
    destruct (bf_cadena (mkMundo m objs) o L Hbf Eo) as (ls & Hc & Ht). simpl in Hc.
    destruct (insertarAlFinal_spec m L v ls Hc) as (l & m' & L' & Hins & Htam & Hl & Hc' & Hm & _).
    rewrite Hins in Hp. cbn [mbind option_bind] in Hp. injection Hp as <-.
    destruct (bf_objeto (mkMundo m objs) o m' L' ls (ls ++ [l])) as [Hbf' Hfr]; simpl; try done.
    + intros; congruence.
    + intros L0 HL0. rewrite Eo in HL0. by injection HL0 as <-.
    + intros x Hxd Hxls. apply Hm; [done|]. intros ->. contradiction.
    + intros x Hx. destruct (decide (x = l)) as [->|Hxl]; [by right|left]. set_solver.
    + rewrite Htam, Ht, length_app. simpl. lia.
    + split; [done|]. intros o2 L2 ls2 Ho2 HL2 Hc2. simpl.
      split; [by rewrite lookup_insert_ne|]. by apply (Hfr o2 L2 ls2).
  - (* EliminarMin *)
    destruct (objs !! o) as [L|] eqn:Eo; cbn [mbind option_bind] in Hp; [|discriminate].
    destruct (bf_cadena (mkMundo m objs) o L Hbf Eo) as (ls & Hc & Ht). simpl in Hc.
    destruct (cabeza L) as [c|] eqn:Ecab.
    + destruct (eliminarMinimo_spec m L c ls Ecab Hc)
        as (v & m' & L' & ls' & Hel & Hc' & Htam & Hlen & Hsub & Hm).
      rewrite Hel in Hp. cbn [mbind option_bind] in Hp. injection Hp as <-.
      destruct (bf_objeto (mkMundo m objs) o m' L' ls ls') as [Hbf' Hfr]; simpl; try done.
      * intros; congruence.
      * intros L0 HL0. rewrite Eo in HL0. injection HL0 as <-. by rewrite Ecab.
      * intros x _ Hx. by apply Hm.
      * intros x Hx. left. by apply Hsub.
      * rewrite Htam, Ht, <-Hlen. lia.
      * split; [done|]. intros o2 L2 ls2 Ho2 HL2 Hc2. simpl.
        split; [by rewrite lookup_insert_ne|]. by apply (Hfr o2 L2 ls2).
    + unfold eliminarMinimo in Hp. rewrite Ecab in Hp. cbn [mbind option_bind] in Hp. injection Hp as <-.
      destruct (bf_objeto (mkMundo m objs) o m L ls ls) as [Hbf' Hfr]; simpl; try done.
      * intros; congruence.
      * intros L0 HL0. rewrite Eo in HL0. injection HL0 as <-. by rewrite Ecab.
      * intros x Hx. by left.
      * by rewrite Ecab.
      * split; [done|]. intros o2 L2 ls2 Ho2 HL2 Hc2. simpl.
        split; [by rewrite lookup_insert_ne|]. by apply (Hfr o2 L2 ls2).
  - (* CopiarDe *)
    destruct (objs !! o) eqn:Eo; [discriminate|].
    destruct (objs !! src) as [Ls|] eqn:Es; cbn [mbind option_bind] in Hp; [|discriminate].
    destruct (bf_cadena (mkMundo m objs) src Ls Hbf Es) as (lss & Hcs & Hts). simpl in Hcs.
    destruct (copia_resultado m Ls lss Hcs) as (m' & L' & ln & Hcop & Hc' & Ht' & _ & Hfresh & Hm & Hlen).
    unfold copiar in Hp. rewrite Hcop in Hp. cbn [mbind option_bind] in Hp. injection Hp as <-.
    destruct (bf_objeto (mkMundo m objs) o m' L' [] ln) as [Hbf' Hfr]; simpl; try done.
    + intros L0 HL0. congruence.
    + intros x Hxd _. apply Hm. intros Hx. exact (Hfresh x Hx Hxd).
    + intros x Hx. right. by apply Hfresh.
    + by rewrite Ht', Hlen.
    + split; [done|]. intros o2 L2 ls2 Ho2 HL2 Hc2. simpl.
      split; [by rewrite lookup_insert_ne|]. by apply (Hfr o2 L2 ls2).
  - (* Asignar *)
    destruct (objs !! o) as [Ld|] eqn:Eo; cbn [mbind option_bind] in Hp; [|discriminate].
    destruct (objs !! src) as [Ls|] eqn:Es; cbn [mbind option_bind] in Hp; [|discriminate].
    case_bool_decide as Hos.
    { injection Hp as <-. split; [done|]. intros; by split. }
    destruct (bf_cadena (mkMundo m objs) o Ld Hbf Eo) as (lsd & Hcd & Htd). simpl in Hcd.
    destruct (bf_cadena (mkMundo m objs) src Ls Hbf Es) as (lss & Hcs & Hts). simpl in Hcs.
    unfold asignar_liberar in Hp.
    destruct (liberar_cadena (combustible m) m (cabeza Ld) lsd Hcd) as (m1 & Hlib & Hm1).
    { pose proof (cadena_length _ _ _ Hcd). unfold combustible. lia. }
    rewrite Hlib in Hp. cbn [mbind option_bind] in Hp.
    assert (Hdis : lss ## lsd).
    { destruct Hbf as [_ Hd]. exact (Hd src o Ls Ld lss lsd (not_eq_sym Hos) Es Eo Hcs Hcd). }
    assert (Hm1' : ∀ x, x ∉ lsd → m1 !! x = m !! x).
    { intros x Hx. rewrite Hm1. by rewrite decide_False. }
    assert (Hcs1 : cadena m1 (cabeza Ls) lss).
    { apply cadena_frame with m; [done|]. intros x Hx. apply Hm1'. set_solver. }
    destruct (copia_resultado m1 Ls lss Hcs1) as (m2 & L' & ln & Hcop & Hc' & Ht' & _ & Hfresh & Hm2 & Hlen).
    rewrite Hcop in Hp. cbn [mbind option_bind] in Hp. injection Hp as <-.
    destruct (bf_objeto (mkMundo m objs) o m2 L' lsd ln) as [Hbf' Hfr]; simpl; try done.
    + intros; congruence.
    + intros L0 HL0. rewrite Eo in HL0. by injection HL0 as <-.
    + intros x Hxd Hxl. rewrite Hm2; [by apply Hm1'|].
      intros Hxn. apply (Hfresh x Hxn). apply elem_of_dom. rewrite Hm1' by done.
      by apply elem_of_dom.
    + intros x Hx. destruct (decide (x ∈ lsd)) as [Hxl|Hxl]; [by left|right].
      intros Hxd. apply (Hfresh x Hx). apply elem_of_dom. rewrite Hm1' by done.
      by apply elem_of_dom.
    + by rewrite Ht', Hlen.
    + split; [done|]. intros o2 L2 ls2 Ho2 HL2 Hc2. simpl.
      split; [by rewrite lookup_insert_ne|]. by apply (Hfr o2 L2 ls2).
  - (* Destruir *)
    destruct (objs !! o) as [L|] eqn:Eo; cbn [mbind option_bind] in Hp; [|discriminate].
    destruct (bf_cadena (mkMundo m objs) o L Hbf Eo) as (ls & Hc & Ht). simpl in Hc.
    destruct (liberar_cadena (combustible m) m (cabeza L) ls Hc) as (m' & Hlib & Hm').
    { pose proof (cadena_length _ _ _ Hc). unfold combustible. lia. }
    rewrite Hlib in Hp. cbn [mbind option_bind] in Hp. injection Hp as <-.
    destruct (bf_destruir (mkMundo m objs) o L m' ls) as [Hbf' Hfr]; simpl; try done.
    + intros x Hx. rewrite Hm'. by rewrite decide_False.
    + split; [done|]. intros o2 L2 ls2 Ho2 HL2 Hc2. simpl.
      split; [by rewrite lookup_delete_ne|]. by apply (Hfr o2 L2 ls2).
Qed.

Lemma pasos_spec (w w' : Mundo T) ops :
  bien_formado w → pasos w ops = Some w' →
  bien_formado w'
  ∧ ∀ o L ls, Forall (λ op, objetivo op ≠ o) ops → objetos w !! o = Some L →
      cadena (memoria w) (cabeza L) ls →
      objetos w' !! o = Some L ∧ ∀ x, x ∈ ls → memoria w' !! x = memoria w !! x.
Proof.
  revert w. induction ops as [|op ops IH]; intros w Hbf Hp; simpl in Hp.
  - injection Hp as <-. split; [done|]. intros; by split.
  - destruct (paso w op) as [w1|] eqn:E1; simpl in Hp; [|discriminate].
    destruct (paso_spec w w1 op Hbf E1) as [Hbf1 Hfr1].
    destruct (IH w1 Hbf1 Hp) as [Hbf' Hfr']. split; [done|].
    intros o L ls Hops HL Hc. apply Forall_cons in Hops as [Hop Hops].
    destruct (Hfr1 o L ls (not_eq_sym Hop) HL Hc) as [HL1 Hm1].
    assert (Hc1 : cadena (memoria w1) (cabeza L) ls) by (by apply cadena_frame with (memoria w)).
    destruct (Hfr' o L ls Hops HL1 Hc1) as [HL' Hm'].
    split; [done|]. intros x Hx. rewrite Hm', Hm1; done.
Qed.

Lemma alcanzable_bf (w : Mundo T) : alcanzable w → bien_formado w.
Proof.
  induction 1 as [|w op w' Hw IH Hp]; [apply bf_inicio|].
  exact (proj1 (paso_spec w w' op IH Hp)).
Qed.

Lemma pasos_alcanzable (w w' : Mundo T) ops :
  alcanzable w → pasos w ops = Some w' → alcanzable w'.
Proof.
  revert w. induction ops as [|op ops IH]; intros w Hw Hp; simpl in Hp.
  - by injection Hp as <-.
  - destruct (paso w op) as [w1|] eqn:E1; simpl in Hp; [|discriminate].
    apply (IH w1); [by apply alc_paso with w op|done].
Qed.

Lemma insertar_progreso (w : Mundo T) o L v :
  bien_formado w → objetos w !! o = Some L → is_Some (paso w (Insertar o v)).
Proof.
  intros Hbf HL. destruct (bf_cadena w o L Hbf HL) as (ls & Hc & _).
  destruct (insertarAlFinal_spec (memoria w) L v ls Hc) as (l & m' & L' & Hins & _).
  cbn [paso]. rewrite HL. cbn [mbind option_bind]. rewrite Hins. by eexists.
Qed.

Lemma eliminar_progreso (w : Mundo T) o L :
  bien_formado w → objetos w !! o = Some L → is_Some (paso w (EliminarMin o)).
Proof.
  intros Hbf HL. destruct (bf_cadena w o L Hbf HL) as (ls & Hc & _).
  cbn [paso]. rewrite HL. cbn [mbind option_bind].
  destruct (cabeza L) as [c|] eqn:Ecab.
  - destruct (eliminarMinimo_spec (memoria w) L c ls Ecab Hc) as (v & m' & L' & ls' & Hel & _).
    rewrite Hel. by eexists.
  - unfold eliminarMinimo. rewrite Ecab. by eexists.
Qed.

Lemma frame_imprimir (w w' : Mundo T) o L ops :
  bien_formado w → Forall (λ op, objetivo op ≠ o) ops → pasos w ops = Some w' →
  objetos w !! o = Some L →
  objetos w' !! o = Some L ∧ imprimir (memoria w') L = imprimir (memoria w) L.
Proof.
  intros Hbf Hops Hp HL. destruct (bf_cadena w o L Hbf HL) as (ls & Hc & _).
  destruct (pasos_spec w w' ops Hbf Hp) as [_ Hfr].
  destruct (Hfr o L ls Hops HL Hc) as [HL' Hm]. split; [done|].
  rewrite (imprimir_cadena _ _ _ Hc).
  rewrite (imprimir_cadena _ _ ls); [by rewrite (valores_frame _ _ _ Hm)|].
  by apply cadena_frame with (memoria w).
Qed.

Lemma copia_comun (w w' : Mundo T) a b La Lb op lsa ln :
  bien_formado w → a ≠ b → objetos w !! a = Some La → cadena (memoria w) (cabeza La) lsa →
  tamano La = Z.of_nat (length lsa) → objetivo op = b →
  paso w op = Some w' → objetos w' !! b = Some Lb → cadena (memoria w') (cabeza Lb) ln →
  valores (memoria w') ln = valores (memoria w) lsa → tamano Lb = Z.of_nat (length lsa) →
  objetos w' !! a = Some La
  ∧ imprimir (memoria w') Lb = imprimir (memoria w) La
  ∧ imprimir (memoria w') La = imprimir (memoria w) La
  ∧ obtenerTamano Lb = obtenerTamano La
  ∧ (∀ lsa' lsb, cadena (memoria w') (cabeza La) lsa' → cadena (memoria w') (cabeza Lb) lsb →
       lsa' ## lsb)
  ∧ (∀ ops w'', Forall (λ op, objetivo op ≠ b) ops → pasos w' ops = Some w'' →
       objetos w'' !! b = Some Lb ∧ imprimir (memoria w'') Lb = imprimir (memoria w') Lb)
  ∧ (∀ ops w'', Forall (λ op, objetivo op ≠ a) ops → pasos w' ops = Some w'' →
       objetos w'' !! a = Some La ∧ imprimir (memoria w'') La = imprimir (memoria w') La)
  ∧ (∀ v, is_Some (paso w' (Insertar a v)) ∧ is_Some (paso w' (Insertar b v)))
  ∧ is_Some (paso w' (EliminarMin a)) ∧ is_Some (paso w' (EliminarMin b)).
Proof.
  intros Hbf Hab HLa Hca Hta Hop Hp HLb Hcb Hval Htb.
  destruct (paso_spec w w' op Hbf Hp) as [Hbf' Hfr].
  destruct (Hfr a La lsa ltac:(by rewrite Hop) HLa Hca) as [HLa' Hma].
  assert (Hca' : cadena (memoria w') (cabeza La) lsa) by (by apply cadena_frame with (memoria w)).
  split; [done|]. split; [|split; [|split; [|split; [|split; [|split; [|split]]]]]].
  - rewrite (imprimir_cadena _ _ _ Hcb), (imprimir_cadena _ _ _ Hca). by rewrite Hval.
  - rewrite (imprimir_cadena _ _ _ Hca'), (imprimir_cadena _ _ _ Hca).
    by rewrite (valores_frame _ _ _ Hma).
  - unfold obtenerTamano. by rewrite Htb, Hta.
  - intros lsa' lsb Ha Hb. destruct Hbf' as [_ Hd]. exact (Hd a b La Lb lsa' lsb Hab HLa' HLb Ha Hb).
  - intros ops w'' Hops Hp'. by apply (frame_imprimir w' w'' b Lb ops).
  - intros ops w'' Hops Hp'. by apply (frame_imprimir w' w'' a La ops).
  - intros v. split; [by apply (insertar_progreso w' a La)|by apply (insertar_progreso w' b Lb)].
  - split; [by apply (eliminar_progreso w' a La)|by apply (eliminar_progreso w' b Lb)].
Qed.

(** C10.  In every state the program reaches through the list operations
    (construction, [insertarAlFinal], [eliminarMinimo], copy construction,
    assignment, destruction), every list object [L] is a chain of nodes
    from [cabeza] to [nullptr] that visits [tamano L] distinct nodes, so
    [estaVacia L] holds exactly when [obtenerTamano L] is 0. *)
Theorem tamano_consistente (w : Mundo T) o L :
  alcanzable w → objetos w !! o = Some L →
  ∃ ls, cadena (memoria w) (cabeza L) ls ∧ obtenerTamano L = Z.of_nat (length ls)
    ∧ (estaVacia L = true ↔ obtenerTamano L = 0%Z).
Proof.
  intros Hw HL. destruct (bf_cadena w o L (alcanzable_bf w Hw) HL) as (ls & Hc & Ht).
  exists ls. unfold obtenerTamano. split; [done|]. split; [done|].
  pose proof (cadena_vacia _ _ _ Hc) as Hv. unfold estaVacia. rewrite Ht.
  destruct (cabeza L) as [c|]; destruct ls as [|x ls]; simpl; split; intros; try done; try lia.
  - by destruct Hv as [_ Hv]; specialize (Hv eq_refl).
  - by destruct Hv as [Hv _]; specialize (Hv eq_refl).
Qed.

(** C5.  In a reachable state, with [a] a list object and [b] another
    name: the copy construction [ListaSensor<T> b(a);] (when [b] does not
    exist yet) and the assignment [b = a;] (when it does) both succeed and
    give [b] the same values as [a], in the same order ([imprimir]), and
    the same size, on nodes of its own, while [a] keeps its nodes and
    values; afterwards, any operations on objects other than [b]
    (appending to [a], removing its minimum, ...) leave [b]'s size and
    printed values as they are, and any operations on objects other than
    [a] leave [a]'s; both lists accept [insertarAlFinal] and
    [eliminarMinimo].  The assignment first releases all the nodes of the
    old [b] ([asignar_liberar]: those locations are deleted, the others
    untouched) and then copies [a] into the heap that results.
    ([b = b;] is guarded: [operator=] returns at once.) *)
Theorem copia_profunda (w : Mundo T) a b La op :
  alcanzable w → a ≠ b → objetos w !! a = Some La →
  (op = CopiarDe b a ∧ objetos w !! b = None ∨ op = Asignar b a ∧ is_Some (objetos w !! b)) →
  ∃ w' Lb,
    paso w op = Some w' ∧ objetos w' !! b = Some Lb
    ∧ objetos w' !! a = Some La
    ∧ imprimir (memoria w') Lb = imprimir (memoria w) La
    ∧ imprimir (memoria w') La = imprimir (memoria w) La
    ∧ obtenerTamano Lb = obtenerTamano La
    ∧ (∀ lsa lsb, cadena (memoria w') (cabeza La) lsa → cadena (memoria w') (cabeza Lb) lsb →
         lsa ## lsb)
    ∧ (∀ ops w'', Forall (λ op, objetivo op ≠ b) ops → pasos w' ops = Some w'' →
         objetos w'' !! b = Some Lb ∧ imprimir (memoria w'') Lb = imprimir (memoria w') Lb)
    ∧ (∀ ops w'', Forall (λ op, objetivo op ≠ a) ops → pasos w' ops = Some w'' →
         objetos w'' !! a = Some La ∧ imprimir (memoria w'') La = imprimir (memoria w') La)
    ∧ (∀ v, is_Some (paso w' (Insertar a v)) ∧ is_Some (paso w' (Insertar b v)))
    ∧ is_Some (paso w' (EliminarMin a)) ∧ is_Some (paso w' (EliminarMin b))
    ∧ (op = Asignar b a → ∀ Lb0, objetos w !! b = Some Lb0 →
         ∃ m1, asignar_liberar (memoria w) Lb0 = Some m1
           ∧ (∀ ls0 x, cadena (memoria w) (cabeza Lb0) ls0 →
                m1 !! x = if decide (x ∈ ls0) then None else memoria w !! x)
           ∧ copiar_desde (combustible m1) m1 (mkLista None 0) (cabeza La) = Some (memoria w', Lb)).
Proof.
  intros Hw Hab HLa Hop. pose proof (alcanzable_bf w Hw) as Hbf.
  destruct (bf_cadena w a La Hbf HLa) as (lsa & Hca & Hta).
  destruct w as [m objs]. cbn [memoria objetos] in *.
  destruct Hop as [[-> Eb]|[-> [Lb0 Eb]]].
  - destruct (copia_resultado m La lsa Hca)
      as (m' & Lb & ln & Hcop & Hcb & Htb & Hval & Hfresh & Hm & Hlen).
    assert (Hp : paso (mkMundo m objs) (CopiarDe b a) = Some (mkMundo m' (<[b:=Lb]> objs))).
    { cbn [paso memoria objetos]. rewrite Eb, HLa. cbn [mbind option_bind].
      unfold copiar. by rewrite Hcop. }
    exists (mkMundo m' (<[b:=Lb]> objs)), Lb.
    destruct (copia_comun (mkMundo m objs) (mkMundo m' (<[b:=Lb]> objs)) a b La Lb
                (CopiarDe b a) lsa ln)
      as (H1 & H2 & H3 & H4 & H5 & H6 & H7 & H8 & H9 & H10); cbn [memoria objetos objetivo]; try done.
    { apply lookup_insert_eq. }
    split_and!; try done. apply lookup_insert_eq.
  - destruct (bf_cadena _ b Lb0 Hbf Eb) as (lsb & Hcb0 & _). simpl in Hcb0.
    destruct (liberar_cadena (combustible m) m (cabeza Lb0) lsb Hcb0) as (m1 & Hlib & Hm1).
    { pose proof (cadena_length _ _ _ Hcb0). unfold combustible. lia. }
    assert (Hdis : lsa ## lsb).
    { destruct Hbf as [_ Hd]. exact (Hd a b La Lb0 lsa lsb Hab HLa Eb Hca Hcb0). }
    assert (Hm1' : ∀ x, x ∈ lsa → m1 !! x = m !! x).
    { intros x Hx. rewrite Hm1. rewrite decide_False; [done|]. set_solver. }
    assert (Hca1 : cadena m1 (cabeza La) lsa) by (by apply cadena_frame with m).
    destruct (copia_resultado m1 La lsa Hca1)
      as (m2 & Lb & ln & Hcop & Hcb & Htb & Hval & Hfresh & Hm & Hlen).
    assert (Hp : paso (mkMundo m objs) (Asignar b a) = Some (mkMundo m2 (<[b:=Lb]> objs))).
    { cbn [paso memoria objetos]. rewrite Eb, HLa. cbn [mbind option_bind].
      rewrite bool_decide_false by done. unfold asignar_liberar. rewrite Hlib.
      cbn [mbind option_bind]. by rewrite Hcop. }
    exists (mkMundo m2 (<[b:=Lb]> objs)), Lb.
    destruct (copia_comun (mkMundo m objs) (mkMundo m2 (<[b:=Lb]> objs)) a b La Lb
                (Asignar b a) lsa ln)
      as (H1 & H2 & H3 & H4 & H5 & H6 & H7 & H8 & H9 & H10); cbn [memoria objetos objetivo]; try done.
    { apply lookup_insert_eq. }
    { rewrite Hval. by apply valores_frame. }
    split_and!; try done; [apply lookup_insert_eq|].
    intros _ Lb1 HLb1. rewrite Eb in HLb1. injection HLb1 as <-.
    exists m1. split; [done|]. split; [|done].
    intros ls0 x Hc0. by rewrite (cadena_det _ _ _ _ Hc0 Hcb0).
Qed.

End cadenas.

Lemma tamano_consistente_witness :
  ∃ (w : Mundo Z) L,
    pasos (mkMundo ∅ ∅) [Construir 0; Insertar 0 5; Insertar 0 3; CopiarDe 1 0; EliminarMin 0]
      = Some w
    ∧ objetos w !! 1%nat = Some L ∧ alcanzable w
    ∧ ∃ ls, cadena (memoria w) (cabeza L) ls ∧ obtenerTamano L = Z.of_nat (length ls)
        ∧ (estaVacia L = true ↔ obtenerTamano L = 0%Z).
Proof.
  pose (ops := [Construir 0; Insertar 0 5; Insertar 0 3; CopiarDe 1 0; EliminarMin (T:=Z) 0]).
  pose (w := default (mkMundo ∅ ∅) (pasos (mkMundo ∅ ∅) ops)).
  assert (E : pasos (mkMundo ∅ ∅) ops = Some w) by (vm_compute; reflexivity).
  pose (L := default (mkLista None 0) (objetos w !! 1%nat)).
  assert (EL : objetos w !! 1%nat = Some L) by (vm_compute; reflexivity).
  assert (Hw : alcanzable w) by exact (pasos_alcanzable _ _ ops alc_inicio E).
  exists w, L. split; [exact E|]. split; [exact EL|]. split; [exact Hw|].
  exact (tamano_consistente w 1 L Hw EL).
Defined.

Lemma copia_profunda_witness :
  ∃ (w w' : Mundo Z) La Lb,
    pasos (mkMundo ∅ ∅) [Construir 0; Insertar 0 5; Insertar 0 3; Construir 1; Insertar 1 7]
      = Some w
    ∧ objetos w !! 0%nat = Some La
    ∧ paso w (Asignar 1 0) = Some w' ∧ objetos w' !! 1%nat = Some Lb
    ∧ imprimir (memoria w') Lb = imprimir (memoria w) La
    ∧ obtenerTamano Lb = obtenerTamano La.
Proof.
  pose (ops := [Construir 0; Insertar 0 5; Insertar 0 3; Construir 1; Insertar (T:=Z) 1 7]).
  pose (w := default (mkMundo ∅ ∅) (pasos (mkMundo ∅ ∅) ops)).
  assert (E : pasos (mkMundo ∅ ∅) ops = Some w) by (vm_compute; reflexivity).
  pose (La := default (mkLista None 0) (objetos w !! 0%nat)).
  assert (ELa : objetos w !! 0%nat = Some La) by (vm_compute; reflexivity).
  assert (Eb : is_Some (objetos w !! 1%nat)) by (vm_compute; by eexists).
  destruct (copia_profunda w 0 1 La (Asignar 1 0) (pasos_alcanzable _ _ ops alc_inicio E)
              ltac:(discriminate) ELa (or_intror (conj eq_refl Eb)))
    as (w' & Lb & Hp & HLb & _ & Himp & _ & Htam & _).
  exists w, w', La, Lb. split; [exact E|]. split; [exact ELa|].
  split; [exact Hp|]. split; [exact HLb|]. split; [exact Himp|exact Htam].
Defined.

End HeapPruebas.

Import Conv.

(** ** Fields of a line *)

Section piezas.
Lemma trozos_cons s : ∃ t ts, trozos s = t :: ts.
Proof.
  induction s as [|c r IH]; simpl; [by eexists _, _|].
  destruct (Ascii.eqb c ","%char); [by eexists _, _|].
  destruct IH as (t & ts & ->). by eexists _, _.
Qed.

Lemma trozos_saltar s : no_vacios (trozos (saltar_comas s)) = no_vacios (trozos s).
Proof.
  induction s as [|c r IH]; [done|]. cbn [saltar_comas].
  destruct (Ascii.eqb c ","%char) eqn:E; [|done].
  rewrite IH. cbn [trozos]. rewrite E. unfold no_vacios. rewrite filter_cons. case_decide; done.
Qed.

Lemma saltar_cabeza s c r : saltar_comas s = c :: r → Ascii.eqb c ","%char = false.
Proof.
  induction s as [|x s IH]; simpl; [done|].
  destruct (Ascii.eqb x ","%char) eqn:E; [done|]. by intros [= <- _].
Qed.

Lemma cortar_trozos s t r :
  cortar_token s = (t, r) → trozos s = t :: trozos r ∨ (trozos s = [t] ∧ r = []).
Proof.
  revert t r. induction s as [|c s IH]; intros t r Hc; simpl in Hc |- *.
  - injection Hc as <- <-. by right.
  - destruct (Ascii.eqb c ","%char) eqn:E.
    + injection Hc as <- <-. by left.
    + destruct (cortar_token s) as [t' r'] eqn:Ec. injection Hc as <- <-.
      destruct (IH t' r' eq_refl) as [->|[-> ->]]; [by left|by right].
Qed.

Lemma strtok_trozos s :
  (no_vacios (trozos s) = [] → strtok s = None)
  ∧ ∀ t ts, no_vacios (trozos s) = t :: ts →
      ∃ r, strtok s = Some (String.string_of_list_ascii t, r) ∧ no_vacios (trozos r) = ts.
Proof.
  rewrite <-trozos_saltar. unfold strtok.
  destruct (saltar_comas s) as [|c r] eqn:Es.
  - split; [done|]. intros t ts Ht. discriminate.
  - pose proof (saltar_cabeza s c r Es) as Hc.
    destruct (cortar_token r) as [t0 r0] eqn:Ecr.
    assert (Hfil : no_vacios (trozos (c :: r)) = (c :: t0) :: no_vacios (trozos r0)).
    { simpl. rewrite Hc. unfold no_vacios.
      destruct (cortar_trozos r t0 r0 Ecr) as [->|[-> ->]].
      - rewrite filter_cons. case_decide; done.
      - simpl. rewrite !filter_cons. repeat case_decide; done. }
    rewrite Hfil. cbn [cortar_token]. rewrite Hc, Ecr.
    split; [done|]. intros t ts [= <- <-]. by exists r0.
Qed.

(** [campos]: the first three non-empty pieces. *)
Lemma campos_trozos linea :
  campos linea =
    match no_vacios (trozos (String.list_ascii_of_string linea)) with
    | t :: i :: v :: _ => Some (String.string_of_list_ascii t, String.string_of_list_ascii i, String.string_of_list_ascii v)
    | _ => None
    end.
Proof.
  unfold campos. set (s := String.list_ascii_of_string linea).
  destruct (strtok_trozos s) as [H0 H1].
  destruct (no_vacios (trozos s)) as [|t ts] eqn:E; [by rewrite H0|].
  destruct (H1 t ts eq_refl) as (r1 & -> & E1).
  destruct (strtok_trozos r1) as [H2 H3].
  destruct ts as [|i ts]; [by rewrite H2|].
  destruct (H3 i ts E1) as (r2 & -> & E2).
  destruct (strtok_trozos r2) as [H4 H5].
  destruct ts as [|v ts]; [by rewrite H4|].
  destruct (H5 v ts E2) as (r3 & -> & _). done.
Qed.

Lemma list_ascii_app (a b : string) :
  String.list_ascii_of_string (a +:+ b) = String.list_ascii_of_string a ++ String.list_ascii_of_string b.
Proof. induction a as [|c a IH]; simpl; [done|]. by rewrite IH. Qed.

Lemma trozos_sin_coma t : sin_coma t → trozos t = [t].
Proof.
  induction t as [|c t IH]; intros Ht; [done|]. simpl.
  rewrite (Ht c) by set_solver. rewrite IH; [done|]. intros x Hx. apply Ht. set_solver.
Qed.

Lemma trozos_coma t r : sin_coma t → trozos (t ++ ","%char :: r) = t :: trozos r.
Proof.
  induction t as [|c t IH]; intros Ht; [done|]. simpl.
  rewrite (Ht c) by set_solver. rewrite IH; [done|]. intros x Hx. apply Ht. set_solver.
Qed.

Lemma no_vacios_cons t ts : t ≠ [] → no_vacios (t :: ts) = t :: no_vacios ts.
Proof. intros Ht. unfold no_vacios. rewrite filter_cons. by case_decide. Qed.
Lemma sin_coma_bool l : forallb (λ c, negb (Ascii.eqb c ","%char)) l = true → sin_coma l.
Proof.
  intros Hl c Hc. rewrite forallb_forall in Hl. apply list_elem_of_In in Hc.
  specialize (Hl c Hc). by destruct (Ascii.eqb c ","%char).
Qed.

End piezas.
(** X1. [procesarLinea]'s three [strtok] calls take the first three
    non-empty comma-separated pieces of the line: empty pieces (",,",
    a leading comma) are skipped, pieces after the third are ignored,
    and fewer than three non-empty pieces give no fields. *)
Theorem campos_piezas (linea : string) :
  campos linea =
    match no_vacios (trozos (texto linea)) with
    | t :: i :: v :: _ =>
        Some (String.string_of_list_ascii t, String.string_of_list_ascii i, String.string_of_list_ascii v)
    | _ => None
    end.
Proof. apply campos_trozos. Qed.

(** X2. A line built as [tipo,id,valor] from three non-empty pieces
    without commas gives back exactly those three fields, also with any
    further comma-separated text after the value. *)
Theorem campos_ida_vuelta (tipo id v r : string) :
  tipo ≠ ""%string → id ≠ ""%string → v ≠ ""%string →
  sin_coma (texto tipo) → sin_coma (texto id) → sin_coma (texto v) →
  campos (tipo +:+ "," +:+ id +:+ "," +:+ v) = Some (tipo, id, v)
  ∧ campos (tipo +:+ "," +:+ id +:+ "," +:+ v +:+ "," +:+ r) = Some (tipo, id, v).
Proof.
  intros Ht Hi Hv Ct Ci Cv. unfold texto in *.
  assert (Hne : ∀ s : string, s ≠ ""%string → String.list_ascii_of_string s ≠ []).
  { intros [|c s] Hs; [done|]. simpl. done. }
  rewrite !campos_trozos, !list_ascii_app. simpl.
  rewrite !trozos_coma by done.
  rewrite (trozos_sin_coma (String.list_ascii_of_string v)) by done.
  rewrite !no_vacios_cons by (by apply Hne).
  rewrite !String.string_of_list_ascii_of_string. done.
Qed.

Lemma campos_ida_vuelta_witness :
  ("T" ≠ "")%string ∧ ("T-001" ≠ "")%string ∧ ("23.5" ≠ "")%string ∧
  sin_coma (texto "T") ∧ sin_coma (texto "T-001") ∧ sin_coma (texto "23.5") ∧
  (campos ("T" +:+ "," +:+ "T-001" +:+ "," +:+ "23.5") = Some ("T", "T-001", "23.5")
   ∧ campos ("T" +:+ "," +:+ "T-001" +:+ "," +:+ "23.5" +:+ "," +:+ "x") = Some ("T", "T-001", "23.5"))%string.
Proof.
  assert (Ct : sin_coma (texto "T")) by (apply sin_coma_bool; reflexivity).
  assert (Ci : sin_coma (texto "T-001")) by (apply sin_coma_bool; reflexivity).
  assert (Cv : sin_coma (texto "23.5")) by (apply sin_coma_bool; reflexivity).
  split; [discriminate|]. split; [discriminate|]. split; [discriminate|].
  split; [exact Ct|]. split; [exact Ci|]. split; [exact Cv|].
  exact (campos_ida_vuelta "T" "T-001" "23.5" "x" ltac:(discriminate) ltac:(discriminate)
           ltac:(discriminate) Ct Ci Cv).
Defined.

(** ** Framing of the serial stream *)

Section tramas.
Local Open Scope nat_scope.

Lemma flujo_app a b p :
  flujo (a ++ b) p = let '(p1, o1) := flujo a p in let '(p2, o2) := flujo b p1 in (p2, o1 ++ o2).
Proof.
  revert p. induction a as [|e a IH]; intros p; simpl.
  - by destruct (flujo b p).
  - destruct (leerLinea e p) as [p' out]. rewrite IH.
    destruct (flujo a p') as [p1 o1]. destruct (flujo b p1) as [p2 o2].
    destruct out; done.
Qed.

(** Bytes that are not terminators: the buffer keeps the first 255. *)
Lemma flujo_cuerpo xs p :
  length p ≤ 255 → Forall (λ c, es_fin_de_linea c = false) xs →
  flujo (map Some xs) p = (take 255 (p ++ xs), []).
Proof.
  revert p. induction xs as [|x xs IH]; intros p Hp Hx.
  - simpl. rewrite app_nil_r, take_ge by done. done.
  - apply Forall_cons in Hx as [Hx Hxs]. simpl. unfold leerLinea, leerLineaSerial.
    rewrite Hx. destruct (length p <? 255) eqn:E.
    + apply Nat.ltb_lt in E. rewrite IH by (rewrite ?length_app; simpl; lia || done).
      by rewrite <-app_assoc.
    + apply Nat.ltb_ge in E. rewrite IH by done.
      rewrite !take_app_le by lia. rewrite !take_ge by lia. done.
Qed.

(** Terminators on an empty buffer are ignored. *)
Lemma flujo_fines ts :
  Forall (λ c, es_fin_de_linea c = true) ts → flujo (map Some ts) [] = ([], []).
Proof.
  induction ts as [|t ts IH]; intros Ht; [done|].
  apply Forall_cons in Ht as [Ht Hts]. simpl. unfold leerLinea, leerLineaSerial.
  rewrite Ht. simpl. rewrite IH by done. done.
Qed.

Lemma hasta_nul_sin xs : Forall (λ c, es_nul c = false) xs → hasta_nul xs = xs.
Proof.
  induction xs as [|x xs IH]; intros Hx; [done|]. apply Forall_cons in Hx as [Hx Hxs].
  simpl. unfold es_nul in Hx. rewrite Hx. by rewrite IH.
Qed.

Lemma flujo_linea l t rest :
  l ≠ [] → Forall (λ c, es_fin_de_linea c = false ∧ es_nul c = false) l →
  t ≠ [] → Forall (λ c, es_fin_de_linea c = true) t →
  flujo (map Some (l ++ t ++ rest)) [] =
    let '(pf, ls) := flujo (map Some rest) [] in
    (pf, String.string_of_list_ascii (take 255 l) :: ls).
Proof.
  intros Hl Hc Ht Htf. rewrite !map_app, !flujo_app.
  rewrite flujo_cuerpo by (simpl; lia || (eapply Forall_impl; [exact Hc|]; by intros ? [? ?])).
  destruct t as [|c t]; [done|]. apply Forall_cons in Htf as [Hcf Htf].
  cbn [app map flujo]. unfold leerLinea at 1, leerLineaSerial at 1. rewrite Hcf.
  assert (Hlen : 0 < length (take 255 l)).
  { destruct l as [|x l]; [done|]. simpl. lia. }
  apply Nat.ltb_lt in Hlen. rewrite Hlen.
  cbn iota beta. rewrite (flujo_app (map Some t)), (flujo_fines t) by done. simpl.
  destruct (flujo (map Some rest) []) as [pf ls]. simpl.
  unfold strncpy. rewrite hasta_nul_sin.
  - rewrite take_take, Nat.min_r by lia. done.
  - apply Forall_take. eapply Forall_impl; [exact Hc|]. by intros ? [? ?].
Qed.
Lemma cuerpo_bool l :
  forallb (λ c, negb (es_fin_de_linea c) && negb (es_nul c)) l = true →
  Forall (λ c, es_fin_de_linea c = false ∧ es_nul c = false) l.
Proof.
  intros Hl. apply Forall_forall. intros c Hc. rewrite forallb_forall in Hl.
  apply list_elem_of_In in Hc. specialize (Hl c Hc).
  apply andb_true_iff in Hl as [H1 H2]. apply negb_true_iff in H1, H2. done.
Qed.

End tramas.
Lemma flujo_tramas (t0 : list ascii) (lineas : list (list ascii * list ascii)) :
  Forall (λ c, es_fin_de_linea c = true) t0 → Forall trama_valida lineas →
  flujo (map Some (t0 ++ enmarcar lineas)) [] =
    ([], map (λ lt, String.string_of_list_ascii (take 255 lt.1)) lineas).
Proof.
  intros H0 Hl. rewrite map_app, flujo_app, flujo_fines by done. cbn iota beta.
  assert (Hr : flujo (map Some (enmarcar lineas)) [] =
                 ([], map (λ lt, String.string_of_list_ascii (take 255 lt.1)) lineas)).
  { clear H0. induction lineas as [|[l t] r IH]; [done|].
    apply Forall_cons in Hl as [(Hne & Hc & Htne & Ht) Hr]. simpl in *.
    rewrite flujo_linea by done. rewrite IH by done. done. }
  by rewrite Hr.
Qed.

(** X3. Frames of [leerLineaSerial]: when the stream is a run of
    terminator bytes followed by lines, each a non-empty run of bytes
    that are neither terminators nor NUL followed by a non-empty run of
    terminators, the reader returns each line in order, cut to its first
    255 bytes, and leaves nothing pending. *)
Theorem flujo_enmarcar (t0 : list ascii) (lineas : list (list ascii * list ascii)) :
  Forall (λ c, es_fin_de_linea c = true) t0 → Forall trama_valida lineas →
  flujo (map Some (t0 ++ enmarcar lineas)) [] =
    ([], map (λ lt, String.string_of_list_ascii (take 255 lt.1)) lineas).
Proof. apply flujo_tramas. Qed.

Lemma flujo_enmarcar_witness :
  Forall (λ c, es_fin_de_linea c = true) ["010"%char]
  ∧ Forall trama_valida [(["T"%char; ","%char; "1"%char], ["013"%char; "010"%char])]
  ∧ flujo (map Some (["010"%char] ++ enmarcar [(["T"%char; ","%char; "1"%char], ["013"%char; "010"%char])])) []
    = ([], map (λ lt, String.string_of_list_ascii (take 255 lt.1))
             [(["T"%char; ","%char; "1"%char], ["013"%char; "010"%char])]).
Proof.
  assert (H0 : Forall (λ c, es_fin_de_linea c = true) ["010"%char])
    by (apply List.Forall_cons; [reflexivity|apply List.Forall_nil]).
  assert (H1 : Forall trama_valida [(["T"%char; ","%char; "1"%char], ["013"%char; "010"%char])]).
  { apply List.Forall_cons; [|apply List.Forall_nil].
    split; [discriminate|]. split; [apply cuerpo_bool; reflexivity|]. split; [discriminate|].
    repeat apply List.Forall_cons; try apply List.Forall_nil; reflexivity. }
  split; [exact H0|]. split; [exact H1|]. exact (flujo_enmarcar _ _ H0 H1).
Defined.

(** ** The registry [main] builds *)

Section registro.

Lemma alimentar_foldl (ls : list string) (m : W GestorSensores) :
  (foldl (λ acc l, acc ≫= procesarLinea l) m ls).1 = (alimentar ls m.1).1.
Proof.
  unfold alimentar. revert m. induction ls as [|l ls IH]; intros m; [done|]. cbn [foldl].
  rewrite (IH (m ≫= _)), (IH (mret m.1 ≫= _)). rewrite !W_bind_fst. done.
Qed.

Lemma alimentar_cons (l : string) (ls : list string) (g : GestorSensores) :
  (alimentar (l :: ls) g).1 = (alimentar ls (procesarLinea l g).1).1.
Proof.
  unfold alimentar at 1. cbn [foldl]. rewrite alimentar_foldl. rewrite W_bind_fst. done.
Qed.

Lemma agregarLectura_estado (s : Sensor) (v : string) :
  (agregarLectura s v).1 =
    match s with
    | SensorTemperatura n h => SensorTemperatura n (mkLista (nodos h ++ [atof v]) (tamano h + 1))
    | SensorPresion n h => SensorPresion n (mkLista (nodos h ++ [atoi v]) (tamano h + 1))
    end.
Proof. destruct s as [n [xs t]|n [xs t]]; destruct xs; reflexivity. Qed.

Lemma nuevo_estado (id : string) :
  (nuevoSensorTemperatura id).1 = SensorTemperatura id (mkLista [] 0)
  ∧ (nuevoSensorPresion id).1 = SensorPresion id (mkLista [] 0).
Proof. split; reflexivity. Qed.

Lemma procesarLinea_casos (l : string) (g : GestorSensores) :
  (procesarLinea l g).1 = g
  ∨ (∃ tipo id v i s, campos l = Some (tipo, id, v) ∧ buscarSensor g id = Some i
       ∧ sensores g !! i = Some s
       ∧ (procesarLinea l g).1 = mkGestor (<[i := (agregarLectura s v).1]> (sensores g)) (cantidad g))
  ∨ (∃ tipo id v s, campos l = Some (tipo, id, v) ∧ buscarSensor g id = None
       ∧ (s = SensorTemperatura id (mkLista [] 0) ∨ s = SensorPresion id (mkLista [] 0))
       ∧ (procesarLinea l g).1 = mkGestor (sensores g ++ [(agregarLectura s v).1]) (cantidad g + 1)).
Proof.
  unfold procesarLinea. destruct (campos l) as [[[tipo id] v]|] eqn:Ec; [|by left].
  destruct (buscarSensor g id) as [i|] eqn:Eb.
  - unfold procesarCampos. rewrite Eb. unfold actualizarEn.
    destruct (sensores g !! i) as [s|] eqn:Es; [|by left].
    right; left. exists tipo, id, v, i, s. do 3 (split; [done|]).
    rewrite W_bind_fst. done.
  - destruct (decide (primer_caracter tipo = Some "T"%char)) as [HT|HT].
    { right; right. exists tipo, id, v, (SensorTemperatura id (mkLista [] 0)).
      do 3 (split; [by auto|]). apply procesarCampos_nuevo; [done|]. by left. }
    destruct (decide (primer_caracter tipo = Some "P"%char)) as [HP|HP].
    { right; right. exists tipo, id, v, (SensorPresion id (mkLista [] 0)).
      do 3 (split; [by auto|]). apply procesarCampos_nuevo; [done|]. by right. }
    left. unfold procesarCampos. rewrite Eb.
    rewrite bool_decide_false by done. rewrite bool_decide_false by done. done.
Qed.

Lemma agregarLectura_nombre (s : Sensor) (v : string) :
  obtenerNombre (agregarLectura s v).1 = obtenerNombre s.
Proof. rewrite agregarLectura_estado. by destruct s. Qed.

Lemma agregarLectura_consistente (s : Sensor) (v : string) :
  historial_consistente s → historial_consistente (agregarLectura s v).1.
Proof.
  rewrite agregarLectura_estado. destruct s as [n h|n h]; simpl; rewrite length_app; simpl; lia.
Qed.

Lemma agregarLectura_prefijo (s : Sensor) (v : string) : lecturas_prefijo s (agregarLectura s v).1.
Proof.
  rewrite agregarLectura_estado. destruct s as [n h|n h]; simpl; split; [done| |done|];
    by apply prefix_app_r.
Qed.

Lemma lecturas_prefijo_refl (s : Sensor) : lecturas_prefijo s s.
Proof. destruct s; simpl; done. Qed.

Lemma lecturas_prefijo_trans (s1 s2 s3 : Sensor) :
  lecturas_prefijo s1 s2 → lecturas_prefijo s2 s3 → lecturas_prefijo s1 s3.
Proof.
  destruct s1, s2, s3; simpl; try done; intros [-> H1] [-> H2]; split; try done;
    by etrans.
Qed.

Lemma buscarSensor_nombre (g : GestorSensores) (id : string) (i : nat) (s : Sensor) :
  buscarSensor g id = Some i → sensores g !! i = Some s → obtenerNombre s = id.
Proof.
  unfold buscarSensor. rewrite buscar_desde_Some, Nat.sub_0_r.
  intros (_ & (s' & Hs' & Hn) & _) Hs. congruence.
Qed.

Lemma procesarLinea_valido (l : string) (g : GestorSensores) :
  registro_valido g → registro_valido (procesarLinea l g).1.
Proof.
  intros (Hc & Hnd & Hh).
  destruct (procesarLinea_casos l g) as [->|[(tipo & id & v & i & s & _ & Hb & Hs & ->)
                                         |(tipo & id & v & s & _ & Hb & Hk & ->)]].
  - done.
  - split; [|split]; simpl.
    + by rewrite length_insert.
    + rewrite list_fmap_insert. rewrite agregarLectura_nombre.
      rewrite list_insert_id; [done|]. by rewrite list_lookup_fmap, Hs.
    + apply Forall_insert; [done|]. apply agregarLectura_consistente.
      by eapply Forall_lookup_1.
  - split; [|split]; simpl.
    + rewrite length_app. simpl. lia.
    + rewrite fmap_app. simpl. rewrite agregarLectura_nombre.
      apply NoDup_app. split; [done|]. split; [|apply NoDup_singleton].
      intros x Hx Hx'. apply list_elem_of_singleton in Hx'. subst x.
      apply list_elem_of_fmap in Hx as (s' & Hn & Hs').
      unfold buscarSensor in Hb. rewrite buscar_desde_None in Hb.
      apply (Hb s' Hs'). rewrite <-Hn. by destruct Hk as [->| ->].
    + apply Forall_app. split; [done|]. apply Forall_singleton.
      apply agregarLectura_consistente. by destruct Hk as [->| ->].
Qed.

Lemma procesarLinea_prefijo (l : string) (g : GestorSensores) :
  (∀ i s, sensores g !! i = Some s →
     ∃ s', sensores (procesarLinea l g).1 !! i = Some s' ∧ lecturas_prefijo s s')
  ∧ (length (sensores g) ≤ length (sensores (procesarLinea l g).1)
       ≤ S (length (sensores g)))%nat.
Proof.
  destruct (procesarLinea_casos l g) as [->|[(tipo & id & v & i & s & _ & Hb & Hs & ->)
                                         |(tipo & id & v & s & _ & Hb & Hk & ->)]].
  - split; [|lia]. intros i s Hs. exists s. split; [done|]. apply lecturas_prefijo_refl.
  - simpl. rewrite length_insert. split; [|lia]. intros j s' Hj.
    destruct (decide (i = j)) as [<-|Hij].
    + rewrite list_lookup_insert_eq by (by eapply lookup_lt_Some). eexists; split; [done|].
      rewrite Hs in Hj. injection Hj as <-. apply agregarLectura_prefijo.
    + rewrite list_lookup_insert_ne by done. exists s'. split; [done|]. apply lecturas_prefijo_refl.
  - simpl. rewrite length_app. simpl. split; [|lia]. intros j s' Hj. exists s'.
    split; [by apply lookup_app_l_Some|]. apply lecturas_prefijo_refl.
Qed.

End registro.
(** X4. Feeding lines to [procesarLinea] keeps the registry valid: the
    sensor count equals the length of the chain, no two sensors share a
    name, and each history's size counter equals its number of nodes.
    The lines have no NUL byte and ids of at most 49 bytes ([linea_c]). *)
Theorem alimentar_valido (lineas : list string) (g : GestorSensores) :
  Forall (λ l, linea_c l = true) lineas →
  registro_valido g → registro_valido (alimentar lineas g).1.
Proof.
  revert g. induction lineas as [|l ls IH]; intros g Hl Hg; [done|].
  apply Forall_cons in Hl as [_ Hl].
  rewrite alimentar_cons. apply IH; [done|]. by apply procesarLinea_valido.
Qed.

Lemma alimentar_valido_witness :
  Forall (λ l, linea_c l = true) ["T,T-001,23.5"; "P,P-101,1013"; "T,T-001,19"; "basura"]%string
  ∧ registro_valido gestor_vacio
  ∧ registro_valido (alimentar ["T,T-001,23.5"; "P,P-101,1013"; "T,T-001,19"; "basura"]%string
                       gestor_vacio).1.
Proof.
  assert (Hl : Forall (λ l, linea_c l = true)
                 ["T,T-001,23.5"; "P,P-101,1013"; "T,T-001,19"; "basura"]%string)
    by (repeat apply List.Forall_cons; try apply List.Forall_nil; reflexivity).
  assert (H : registro_valido gestor_vacio)
    by (split; [reflexivity|split; [apply NoDup_nil_2|apply List.Forall_nil]]).
  split; [exact Hl|]. split; [exact H|].
  exact (alimentar_valido ["T,T-001,23.5"; "P,P-101,1013"; "T,T-001,19"; "basura"]%string
           gestor_vacio Hl H).
Defined.

(** X5. Lines fed to [procesarLinea] never remove a sensor, never move
    one and never drop a reading: every sensor keeps its index, kind and
    name, its old readings are a prefix of its new ones, and each line
    adds at most one sensor.  The lines have no NUL byte and ids of at
    most 49 bytes ([linea_c]). *)
Theorem alimentar_solo_anade (lineas : list string) (g : GestorSensores) :
  Forall (λ l, linea_c l = true) lineas →
  (∀ i s, sensores g !! i = Some s →
     ∃ s', sensores (alimentar lineas g).1 !! i = Some s' ∧ lecturas_prefijo s s')
  ∧ (length (sensores g) ≤ length (sensores (alimentar lineas g).1)
       ≤ length (sensores g) + length lineas)%nat.
Proof.
  revert g. induction lineas as [|l ls IH]; intros g Hl.
  - split; [|simpl; lia]. intros i s Hs. exists s. split; [done|]. apply lecturas_prefijo_refl.
  - apply Forall_cons in Hl as [_ Hl].
    rewrite alimentar_cons. destruct (procesarLinea_prefijo l g) as [H1 H2].
    destruct (IH (procesarLinea l g).1 Hl) as [H3 H4]. split; [|simpl; lia].
    intros i s Hs. destruct (H1 i s Hs) as (s1 & Hs1 & P1).
    destruct (H3 i s1 Hs1) as (s2 & Hs2 & P2). exists s2. split; [done|].
    by eapply lecturas_prefijo_trans.
Qed.

Lemma alimentar_solo_anade_witness :
  Forall (λ l, linea_c l = true) ["P,P-101,1015"; "T,T-001,23.5"]%string
  ∧ (∀ i s, sensores (mkGestor [SensorPresion "P-101" (mkLista [1013%Z] 1%Z)] 1%Z) !! i = Some s →
       ∃ s', sensores (alimentar ["P,P-101,1015"; "T,T-001,23.5"]%string
                         (mkGestor [SensorPresion "P-101" (mkLista [1013%Z] 1%Z)] 1%Z)).1 !! i = Some s'
           ∧ lecturas_prefijo s s')
  ∧ (length (sensores (mkGestor [SensorPresion "P-101" (mkLista [1013%Z] 1%Z)] 1%Z))
       ≤ length (sensores (alimentar ["P,P-101,1015"; "T,T-001,23.5"]%string
                             (mkGestor [SensorPresion "P-101" (mkLista [1013%Z] 1%Z)] 1%Z)).1)
       ≤ length (sensores (mkGestor [SensorPresion "P-101" (mkLista [1013%Z] 1%Z)] 1%Z))
         + length ["P,P-101,1015"; "T,T-001,23.5"]%string)%nat.
Proof.
  assert (Hl : Forall (λ l, linea_c l = true) ["P,P-101,1015"; "T,T-001,23.5"]%string)
    by (repeat apply List.Forall_cons; try apply List.Forall_nil; reflexivity).
  split; [exact Hl|].
  exact (alimentar_solo_anade ["P,P-101,1015"; "T,T-001,23.5"]%string
           (mkGestor [SensorPresion "P-101" (mkLista [1013%Z] 1%Z)] 1%Z) Hl).
Defined.

(** ** [procesarTodos] *)

Section todos.

Lemma procesar_cada_fst (l : list Sensor) :
  (procesar_cada l).1 = map (λ s, (procesarLectura s).1) l.
Proof.
  induction l as [|s l IH]; [done|]. cbn [procesar_cada].
  rewrite W_bind_fst, W_bind_fst. cbn. by rewrite IH.
Qed.

Lemma procesarTodos_estado (g : GestorSensores) :
  (procesarTodos g).1 = mkGestor (map (λ s, (procesarLectura s).1) (sensores g)) (cantidad g).
Proof.
  destruct g as [l c]. unfold procesarTodos. cbn [sensores cantidad].
  destruct l as [|s l]; [done|].
  pose proof (procesar_cada_fst (s :: l)) as E.
  destruct (procesar_cada (s :: l)) as [l' ms]. simpl in E |- *. by rewrite E.
Qed.

Lemma procesarLectura_nombre (s : Sensor) : obtenerNombre (procesarLectura s).1 = obtenerNombre s.
Proof.
  destruct s as [n [xs t]|n [xs t]]; unfold procesarLectura, estaVacia, obtenerTamano;
    cbn [nodos tamano]; destruct xs as [|x r]; cbn -[buscarMinimo]; try done.
  - destruct (1 <? t); cbn -[buscarMinimo]; [|done].
    destruct (buscarMinimo (x :: r) 0 x 0). done.
Qed.

Lemma procesarLectura_presion (n : string) (h : ListaSensor Z) :
  (procesarLectura (SensorPresion n h)).1 = SensorPresion n h.
Proof. destruct h as [[|x r] t]; reflexivity. Qed.

Lemma procesarLectura_temp_corto (n : string) (h : ListaSensor Q) :
  tamano h = Z.of_nat (length (nodos h)) → (length (nodos h) ≤ 1)%nat →
  (procesarLectura (SensorTemperatura n h)).1 = SensorTemperatura n h.
Proof.
  destruct h as [[|x [|y r]] t]; simpl; intros Ht Hl; [done| |lia].
  subst t. reflexivity.
Qed.

Lemma procesarLectura_temp_largo (n : string) (h : ListaSensor Q) :
  tamano h = Z.of_nat (length (nodos h)) → (1 < length (nodos h))%nat →
  ∃ m j, (procesarLectura (SensorTemperatura n h)).1
           = SensorTemperatura n (mkLista (delete j (nodos h)) (tamano h - 1))
       ∧ minimo_primero (nodos h) m j.
Proof.
  destruct h as [xs t]; simpl. intros Ht Hl.
  destruct xs as [|x r]; [simpl in Hl; lia|].
  destruct (buscarMinimo_correcto x r) as (m & j & Hb & Hm).
  exists m, j. split; [|done].
  unfold procesarLectura, estaVacia, obtenerTamano, eliminarMinimo. cbn [nodos tamano].
  replace (1 <? t) with true by (symmetry; apply Z.ltb_lt; lia).
  rewrite Hb. reflexivity.
Qed.

Lemma procesarLectura_consistente (s : Sensor) :
  historial_consistente s → historial_consistente (procesarLectura s).1.
Proof.
  destruct s as [n h|n h]; intros Ht; simpl in Ht.
  - destruct (decide (length (nodos h) ≤ 1)%nat) as [Hl|Hl].
    + by rewrite procesarLectura_temp_corto.
    + destruct (procesarLectura_temp_largo n h Ht) as (m & j & -> & [Hj _]); [lia|].
      simpl. rewrite length_delete by (by eexists). lia.
  - by rewrite procesarLectura_presion.
Qed.

Lemma minimo_borrado (xs : list Q) (m : Q) (j : nat) (y : Q) :
  xs !! j = Some m → y ∈ xs → y ∈ delete j xs ∨ y = m.
Proof.
  intros Hj Hy. apply list_elem_of_lookup in Hy as [k Hk].
  destruct (lt_eq_lt_dec k j) as [[Hkj| ->]|Hkj].
  - left. apply list_elem_of_lookup. exists k. rewrite list_lookup_delete_lt by done. done.
  - right. congruence.
  - left. apply list_elem_of_lookup. exists (k - 1)%nat.
    rewrite list_lookup_delete_ge by lia. by replace (S (k - 1)) with k by lia.
Qed.

Lemma iter_estable (g : GestorSensores) (i k : nat) (s : Sensor) :
  sensores g !! i = Some s → (procesarLectura s).1 = s →
  sensores (Nat.iter k (λ g, (procesarTodos g).1) g) !! i = Some s.
Proof.
  intros Hs Hp. induction k as [|k IH]; [done|]. simpl.
  rewrite procesarTodos_estado. simpl. rewrite list_lookup_fmap, IH. simpl. by rewrite Hp.
Qed.

End todos.

(** X6. [procesarTodos] on a valid registry keeps it valid, with the same
    count and the same names in the same order.  A pressure sensor is left
    as it was; a temperature sensor with at most one reading too; one with
    more readings loses exactly one, the first occurrence of a smallest
    reading, and its size counter drops by one. *)
Theorem procesarTodos_efecto (g : GestorSensores) :
  registro_valido g →
  let g' := (procesarTodos g).1 in
  registro_valido g' ∧ cantidad g' = cantidad g
  ∧ map obtenerNombre (sensores g') = map obtenerNombre (sensores g)
  ∧ ∀ i s, sensores g !! i = Some s →
      match s with
      | SensorPresion _ _ => sensores g' !! i = Some s
      | SensorTemperatura n h =>
          ((length (nodos h) ≤ 1)%nat → sensores g' !! i = Some s)
          ∧ ((1 < length (nodos h))%nat →
             ∃ m j, sensores g' !! i =
                      Some (SensorTemperatura n (mkLista (delete j (nodos h)) (tamano h - 1)))
                  ∧ minimo_primero (nodos h) m j)
      end.
Proof.
  intros (Hc & Hnd & Hh). cbv zeta. rewrite procesarTodos_estado. cbn [sensores cantidad].
  assert (Hn : map obtenerNombre (map (λ s, (procesarLectura s).1) (sensores g))
               = map obtenerNombre (sensores g)).
  { rewrite map_map. apply map_ext. intros s. apply procesarLectura_nombre. }
  split; [|split; [done|split; [done|]]].
  - split; [|split]; cbn [sensores cantidad].
    + by rewrite length_map.
    + by rewrite Hn.
    + apply Forall_map. eapply Forall_impl; [done|]. intros s. apply procesarLectura_consistente.
  - intros i s Hs. rewrite list_lookup_fmap, Hs. simpl.
    pose proof (Forall_lookup_1 _ _ _ _ Hh Hs) as Hcs.
    destruct s as [n h|n h]; simpl in Hcs.
    + split.
      * intros Hl. by rewrite procesarLectura_temp_corto.
      * intros Hl. destruct (procesarLectura_temp_largo n h Hcs Hl) as (m & j & -> & Hm).
        by exists m, j.
    + by rewrite procesarLectura_presion.
Qed.

Lemma procesarTodos_efecto_witness :
  registro_valido (mkGestor [SensorTemperatura "T-1" (mkLista [20 # 1; 18 # 1] 2);
                             SensorPresion "P-1" (mkLista [1013] 1)] 2)
  ∧ (let g' := (procesarTodos (mkGestor [SensorTemperatura "T-1" (mkLista [20 # 1; 18 # 1] 2);
                                         SensorPresion "P-1" (mkLista [1013] 1)] 2)).1 in
     registro_valido g' ∧ cantidad g' = 2
     ∧ map obtenerNombre (sensores g') = ["T-1"; "P-1"]%string
     ∧ ∀ i s, [SensorTemperatura "T-1" (mkLista [20 # 1; 18 # 1] 2);
               SensorPresion "P-1" (mkLista [1013] 1)] !! i = Some s →
         match s with
         | SensorPresion _ _ => sensores g' !! i = Some s
         | SensorTemperatura n h =>
             ((length (nodos h) ≤ 1)%nat → sensores g' !! i = Some s)
             ∧ ((1 < length (nodos h))%nat →
                ∃ m j, sensores g' !! i =
                         Some (SensorTemperatura n (mkLista (delete j (nodos h)) (tamano h - 1)))
                     ∧ minimo_primero (nodos h) m j)
         end).
Proof.
  assert (H : registro_valido (mkGestor [SensorTemperatura "T-1" (mkLista [20 # 1; 18 # 1] 2);
                                         SensorPresion "P-1" (mkLista [1013] 1)] 2)).
  { split; [reflexivity|split].
    - apply (bool_decide_unpack _). vm_compute. reflexivity.
    - repeat apply List.Forall_cons; try apply List.Forall_nil; reflexivity. }
  split; [exact H|]. exact (procesarTodos_efecto _ H).
Defined.

(** X7. Calling [procesarTodos] again and again on a temperature sensor
    with a consistent non-empty history of n readings leaves, after n - 1
    calls or more, a single reading, and it is a largest reading of the
    original history. *)
Theorem procesarTodos_repetido (g : GestorSensores) (i k : nat) (n : string) (h : ListaSensor Q) :
  sensores g !! i = Some (SensorTemperatura n h) →
  tamano h = Z.of_nat (length (nodos h)) → nodos h ≠ [] →
  (length (nodos h) - 1 ≤ k)%nat →
  ∃ x, sensores (Nat.iter k (λ g, (procesarTodos g).1) g) !! i
         = Some (SensorTemperatura n (mkLista [x] 1))
     ∧ x ∈ nodos h ∧ ∀ y, y ∈ nodos h → (y <= x)%Q.
Proof.
  revert g h. induction k as [|k IH]; intros g h Hs Ht Hne Hk.
  - destruct h as [[|x [|y r]] t]; simpl in *; [done| |lia]. subst t.
    exists x. split; [done|]. split; [set_solver|]. intros y Hy.
    apply list_elem_of_singleton in Hy as ->. apply Qle_refl.
  - destruct (decide (length (nodos h) ≤ 1)%nat) as [Hl|Hl].
    + destruct h as [[|x [|y r]] t]; cbn [nodos tamano length] in *; [done| |lia]. subst t. change (Z.of_nat 1) with 1 in Hs.
      exists x. split.
      * apply iter_estable; [done|]. by apply procesarLectura_temp_corto.
      * split; [set_solver|]. intros y Hy.
        apply list_elem_of_singleton in Hy as ->. apply Qle_refl.
    + rewrite Nat.iter_succ_r.
      destruct (procesarLectura_temp_largo n h Ht) as (m & j & Hp & Hj & Hmin & _); [lia|].
      assert (Hs' : sensores (procesarTodos g).1 !! i =
                    Some (SensorTemperatura n (mkLista (delete j (nodos h)) (tamano h - 1)))).
      { rewrite procesarTodos_estado. cbn [sensores]. rewrite list_lookup_fmap, Hs, <-Hp. reflexivity. }
      assert (Hlen : length (delete j (nodos h)) = (length (nodos h) - 1)%nat).
      { apply length_delete. by eexists. }
      destruct (IH _ _ Hs') as (x & Hx & Hxin & Hxmax); simpl.
      * rewrite Hlen. lia.
      * intros E. rewrite E in Hlen. simpl in Hlen. lia.
      * rewrite Hlen. lia.
      * exists x. split; [done|]. split.
        -- by apply list_elem_of_delete_inv in Hxin.
        -- intros y Hy. destruct (minimo_borrado _ _ _ y Hj Hy) as [Hy'| ->]; [by apply Hxmax|].
           apply list_elem_of_delete_inv in Hxin.
           specialize (Hmin x Hxin). simpl in Hmin. by apply Qltb_Qle in Hmin.
Qed.

Lemma procesarTodos_repetido_witness :
  sensores (mkGestor [SensorPresion "P-1" (mkLista [1013] 1);
                      SensorTemperatura "T-1" (mkLista [20 # 1; 18 # 1; 25 # 1] 3)] 2) !! 1%nat
    = Some (SensorTemperatura "T-1" (mkLista [20 # 1; 18 # 1; 25 # 1] 3))
  ∧ tamano (mkLista [20 # 1; 18 # 1; 25 # 1] 3)
    = Z.of_nat (length (nodos (mkLista [20 # 1; 18 # 1; 25 # 1] 3)))
  ∧ nodos (mkLista [20 # 1; 18 # 1; 25 # 1] 3) ≠ []
  ∧ (length (nodos (mkLista [20 # 1; 18 # 1; 25 # 1] 3)) - 1 ≤ 2)%nat
  ∧ ∃ x, sensores (Nat.iter 2 (λ g, (procesarTodos g).1)
                     (mkGestor [SensorPresion "P-1" (mkLista [1013] 1);
                                SensorTemperatura "T-1" (mkLista [20 # 1; 18 # 1; 25 # 1] 3)] 2))
           !! 1%nat = Some (SensorTemperatura "T-1" (mkLista [x] 1))
       ∧ x ∈ nodos (mkLista [20 # 1; 18 # 1; 25 # 1] 3)
       ∧ ∀ y, y ∈ nodos (mkLista [20 # 1; 18 # 1; 25 # 1] 3) → (y <= x)%Q.
Proof.
  split; [reflexivity|]. split; [reflexivity|]. split; [discriminate|]. split; [simpl; lia|].
  exact (procesarTodos_repetido
           (mkGestor [SensorPresion "P-1" (mkLista [1013] 1);
                      SensorTemperatura "T-1" (mkLista [20 # 1; 18 # 1; 25 # 1] 3)] 2) 1 2 "T-1" (mkLista [20 # 1; 18 # 1; 25 # 1] 3)
           eq_refl eq_refl ltac:(discriminate) ltac:(simpl; lia)).
Defined.

(** X8. When every reading of a pressure sensor's consistent, non-empty
    history of [n] readings lies in [lo, hi], and [n * lo] and [n * hi]
    lie in the range of [int] (so that the [int] accumulator of
    [calcularPromedio] cannot overflow), [procesarLectura] prints the
    integer mean of [calcularPromedio], and it also lies in [lo, hi]. *)
Theorem presion_promedio_acotado (n : string) (h : ListaSensor Z) (lo hi : Z) :
  tamano h = Z.of_nat (length (nodos h)) → nodos h ≠ [] →
  Forall (λ x, lo ≤ x ≤ hi) (nodos h) →
  INT_MIN ≤ Z.of_nat (length (nodos h)) * lo → Z.of_nat (length (nodos h)) * hi ≤ INT_MAX →
  ∃ v, (procesarLectura (SensorPresion n h)).2 = [LogProcesando n; PresPromedio (tamano h) (VInt v)]
     ∧ lo ≤ v ≤ hi.
Proof.
  destruct h as [xs t]; cbn [nodos tamano]. intros Ht Hne Hb Hlo Hhi. subst t.
  pose proof (suma_acotada _ _ _ Hb) as Hs.
  exists (Z.quot (foldr Z.add 0 xs) (Z.of_nat (length xs))). split.
  - rewrite promedio_presion; [reflexivity|done|].
    exact (prefijos_en_int _ _ _ Hb Hlo Hhi).
  - destruct xs as [|x r]; [done|].
    set (k := Z.of_nat (length (x :: r))) in *.
    assert (Hk : 0 < k) by (unfold k; simpl; lia).
    split.
    + rewrite <-(Z.quot_mul lo k) by lia. apply Z.quot_le_mono; lia.
    + rewrite <-(Z.quot_mul hi k) by lia. apply Z.quot_le_mono; lia.
Qed.

Lemma presion_promedio_acotado_witness :
  tamano (mkLista [1013; 1015; 1012] 3) = Z.of_nat (length (nodos (mkLista [1013; 1015; 1012] 3)))
  ∧ nodos (mkLista [1013; 1015; 1012] 3) ≠ []
  ∧ Forall (λ x, 1012 ≤ x ≤ 1015) (nodos (mkLista [1013; 1015; 1012] 3))
  ∧ INT_MIN ≤ Z.of_nat (length (nodos (mkLista [1013; 1015; 1012] 3))) * 1012
  ∧ Z.of_nat (length (nodos (mkLista [1013; 1015; 1012] 3))) * 1015 ≤ INT_MAX
  ∧ ∃ v, (procesarLectura (SensorPresion "P-101" (mkLista [1013; 1015; 1012] 3))).2
           = [LogProcesando "P-101"; PresPromedio (tamano (mkLista [1013; 1015; 1012] 3)) (VInt v)]
       ∧ 1012 ≤ v ≤ 1015.
Proof.
  assert (Hb : Forall (λ x, 1012 ≤ x ≤ 1015) (nodos (mkLista [1013; 1015; 1012] 3)))
    by (repeat apply List.Forall_cons; try apply List.Forall_nil; lia).
  assert (Hlo : INT_MIN ≤ Z.of_nat (length (nodos (mkLista [1013; 1015; 1012] 3))) * 1012)
    by (unfold INT_MIN; simpl; lia).
  assert (Hhi : Z.of_nat (length (nodos (mkLista [1013; 1015; 1012] 3))) * 1015 ≤ INT_MAX)
    by (unfold INT_MAX; simpl; lia).
  split; [reflexivity|]. split; [discriminate|]. split; [exact Hb|].
  split; [exact Hlo|]. split; [exact Hhi|].
  exact (presion_promedio_acotado "P-101" (mkLista [1013; 1015; 1012] 3) 1012 1015
           eq_refl ltac:(discriminate) Hb Hlo Hhi).
Defined.

(** ** The output of the sketch, read by [main] *)

Section simulacion.

Lemma enmarcar_app a b : enmarcar (a ++ b) = enmarcar a ++ enmarcar b.
Proof.
  induction a as [|[l t] a IH]; [done|]. simpl. rewrite IH. by rewrite !app_assoc.
Qed.

Lemma alimentar_app (a b : list string) (g : GestorSensores) :
  (alimentar (a ++ b) g).1 = (alimentar b (alimentar a g).1).1.
Proof.
  revert g. induction a as [|l a IH]; intros g; [done|].
  rewrite <-app_comm_cons, !alimentar_cons. apply IH.
Qed.

Lemma procesarLinea_existente l g t id v i s :
  campos l = Some (t, id, v) → buscarSensor g id = Some i → sensores g !! i = Some s →
  (procesarLinea l g).1 = mkGestor (<[i := (agregarLectura s v).1]> (sensores g)) (cantidad g).
Proof.
  intros Hc Hb Hs. unfold procesarLinea. rewrite Hc. unfold procesarCampos. rewrite Hb.
  unfold actualizarEn. rewrite Hs. by rewrite W_bind_fst.
Qed.

Lemma procesarLinea_malformada l g : campos l = None → (procesarLinea l g).1 = g.
Proof. intros Hc. unfold procesarLinea. by rewrite Hc. Qed.

Lemma campos_lista (t i v : list ascii) :
  t ≠ [] → i ≠ [] → v ≠ [] → sin_coma t → sin_coma i → sin_coma v →
  campos (String.string_of_list_ascii (t ++ ","%char :: i ++ ","%char :: v))
    = Some (String.string_of_list_ascii t, String.string_of_list_ascii i,
            String.string_of_list_ascii v).
Proof.
  intros Ht Hi Hv Ct Ci Cv. rewrite campos_trozos, String.list_ascii_of_string_of_list_ascii.
  rewrite !trozos_coma by done. rewrite trozos_sin_coma by done.
  by rewrite !no_vacios_cons.
Qed.

Lemma campos_sin_coma (l : list ascii) :
  sin_coma l → campos (String.string_of_list_ascii l) = None.
Proof.
  intros Hl. rewrite campos_trozos, String.list_ascii_of_string_of_list_ascii.
  rewrite trozos_sin_coma by done. unfold no_vacios. rewrite filter_cons.
  case_decide; done.
Qed.

Lemma sin_coma_app a b : sin_coma a → sin_coma b → sin_coma (a ++ b).
Proof. intros Ha Hb c Hc. apply elem_of_app in Hc as [Hc|Hc]; auto. Qed.

Lemma sin_coma_numeral l : numeral l → sin_coma l.
Proof.
  intros (_ & _ & Hl) c Hc. rewrite Forall_forall in Hl. by apply Hl.
Qed.

Lemma cuerpo_numeral l :
  numeral l → Forall (λ c, es_fin_de_linea c = false ∧ es_nul c = false) l.
Proof. intros (_ & _ & Hl). eapply Forall_impl; [exact Hl|]. intros c (_ & ? & ?). done. Qed.

Context (fin : list ascii) (f1 f : Q → list ascii) (fi : Z → list ascii).
Hypothesis fin_ok : fin ≠ [] ∧ Forall (λ c, es_fin_de_linea c = true) fin.
Hypothesis f1_ok : ∀ q, numeral (f1 q).
Hypothesis f_ok : ∀ q, numeral (f q).
Hypothesis fi_ok : ∀ z, numeral (fi z).

Lemma setup_tramas : setup fin = ["010"%char] ++ enmarcar (tramas_setup fin).
Proof. unfold setup, tramas_setup, println. cbn [enmarcar]. rewrite app_nil_r. reflexivity. Qed.

Lemma salida_tramas (ks : list ciclo) :
  salida_serial fin f1 f fi ks
    = ["010"%char] ++ enmarcar (tramas_setup fin ++ concat (map (tramas_ciclo fin f1 f fi) ks)).
Proof.
  unfold salida_serial. rewrite setup_tramas, enmarcar_app, <-app_assoc. f_equal. f_equal.
  induction ks as [|k ks IH]; [done|]. cbn [map concat]. rewrite enmarcar_app, <-IH.
  unfold loop, tramas_ciclo, tramas_temp, tramas_pres, enviarTemperatura, enviarPresion, println.
  rewrite !enmarcar_app. cbn [enmarcar]. rewrite app_nil_r, <-!app_assoc. reflexivity.
Qed.

Lemma campos_dato (tipo : ascii) (id : string) (v : list ascii) :
  Ascii.eqb tipo ","%char = false → id ≠ ""%string → sin_coma (print id) → numeral v →
  campos (String.string_of_list_ascii ([tipo] ++ ","%char :: print id ++ ","%char :: v))
    = Some (String tipo EmptyString, id, String.string_of_list_ascii v).
Proof.
  intros Ht Hi Ci Hv. rewrite campos_lista.
  - unfold print. by rewrite String.string_of_list_ascii_of_string.
  - done.
  - destruct id; done.
  - by destruct Hv.
  - intros c Hc. apply list_elem_of_singleton in Hc. by subst.
  - done.
  - by apply sin_coma_numeral.
Qed.

Lemma temp_lineas (g : GestorSensores) (id : string) (r : Z) (i : nat) (a : ListaSensor Q) :
  id ≠ ""%string → sin_coma (print id) →
  buscarSensor g id = Some i → sensores g !! i = Some (SensorTemperatura id a) →
  (alimentar (map (λ lt, String.string_of_list_ascii lt.1) (tramas_temp fin f1 f id r)) g).1
    = mkGestor (<[i := SensorTemperatura id (mkLista (nodos a ++ [lectura_temp f1 r]) (tamano a + 1))]>
                  (sensores g)) (cantidad g).
Proof.
  intros Hi Ci Hb Hs. unfold tramas_temp. cbn [map fst].
  rewrite alimentar_cons.
  rewrite (procesarLinea_existente _ _ "T" id (String.string_of_list_ascii (f1 (generarTemperatura r))) i
             (SensorTemperatura id a)).
  2:{ apply (campos_dato "T"%char id); auto. }
  2, 3: done.
  rewrite alimentar_cons, procesarLinea_malformada.
  - rewrite agregarLectura_estado. unfold lectura_temp.
    done.
  - apply campos_sin_coma. unfold print.
    repeat apply sin_coma_app; try (apply sin_coma_bool; reflexivity); try done.
    apply sin_coma_numeral, f_ok.
Qed.

Lemma procesarLinea_nuevo l g t id v s :
  campos l = Some (t, id, v) → buscarSensor g id = None →
  (primer_caracter t = Some "T"%char ∧ s = (nuevoSensorTemperatura id).1
   ∨ primer_caracter t = Some "P"%char ∧ s = (nuevoSensorPresion id).1) →
  (procesarLinea l g).1 = mkGestor (sensores g ++ [(agregarLectura s v).1]) (cantidad g + 1).
Proof. intros Hc Hb Hk. unfold procesarLinea. rewrite Hc. by apply procesarCampos_nuevo. Qed.


Lemma temp_lineas_nuevo (g : GestorSensores) (id : string) (r : Z) :
  id ≠ ""%string → sin_coma (print id) → buscarSensor g id = None →
  (alimentar (map (λ lt, String.string_of_list_ascii lt.1) (tramas_temp fin f1 f id r)) g).1
    = mkGestor (sensores g ++ [SensorTemperatura id (mkLista [lectura_temp f1 r] 1)]) (cantidad g + 1).
Proof.
  intros Hi Ci Hb. unfold tramas_temp. cbn [map fst].
  rewrite alimentar_cons.
  rewrite (procesarLinea_nuevo _ _ "T" id (String.string_of_list_ascii (f1 (generarTemperatura r)))
             (nuevoSensorTemperatura id).1).
  2:{ apply (campos_dato "T"%char id); auto. }
  2:{ done. }
  2:{ by left. }
  rewrite alimentar_cons, procesarLinea_malformada; [done|].
  apply campos_sin_coma. unfold print.
  repeat apply sin_coma_app; try (apply sin_coma_bool; reflexivity); try done.
  apply sin_coma_numeral, f_ok.
Qed.

Lemma pres_lineas (g : GestorSensores) (id : string) (r : Z) (i : nat) (a : ListaSensor Z) :
  id ≠ ""%string → sin_coma (print id) →
  buscarSensor g id = Some i → sensores g !! i = Some (SensorPresion id a) →
  (alimentar (map (λ lt, String.string_of_list_ascii lt.1) (tramas_pres fin fi id r)) g).1
    = mkGestor (<[i := SensorPresion id (mkLista (nodos a ++ [lectura_pres fi r]) (tamano a + 1))]>
                  (sensores g)) (cantidad g).
Proof.
  intros Hi Ci Hb Hs. unfold tramas_pres. cbn [map fst].
  rewrite alimentar_cons.
  rewrite (procesarLinea_existente _ _ "P" id (String.string_of_list_ascii (fi (generarPresion r))) i
             (SensorPresion id a)).
  2:{ apply (campos_dato "P"%char id); auto. }
  2, 3: done.
  rewrite alimentar_cons, procesarLinea_malformada.
  - rewrite agregarLectura_estado. done.
  - apply campos_sin_coma. unfold print.
    repeat apply sin_coma_app; try (apply sin_coma_bool; reflexivity); try done.
    apply sin_coma_numeral, fi_ok.
Qed.

Lemma pres_lineas_nuevo (g : GestorSensores) (id : string) (r : Z) :
  id ≠ ""%string → sin_coma (print id) → buscarSensor g id = None →
  (alimentar (map (λ lt, String.string_of_list_ascii lt.1) (tramas_pres fin fi id r)) g).1
    = mkGestor (sensores g ++ [SensorPresion id (mkLista [lectura_pres fi r] 1)]) (cantidad g + 1).
Proof.
  intros Hi Ci Hb. unfold tramas_pres. cbn [map fst].
  rewrite alimentar_cons.
  rewrite (procesarLinea_nuevo _ _ "P" id (String.string_of_list_ascii (fi (generarPresion r)))
             (nuevoSensorPresion id).1).
  2:{ apply (campos_dato "P"%char id); auto. }
  2:{ done. }
  2:{ by right. }
  rewrite alimentar_cons, procesarLinea_malformada; [done|].
  apply campos_sin_coma. unfold print.
  repeat apply sin_coma_app; try (apply sin_coma_bool; reflexivity); try done.
  apply sin_coma_numeral, fi_ok.
Qed.

Lemma fin_de_ciclo (g : GestorSensores) :
  (alimentar [String.string_of_list_ascii (print "--- Ciclo completado ---")] g).1 = g.
Proof. rewrite alimentar_cons, procesarLinea_malformada; [done|]. reflexivity. Qed.

Lemma ciclo_primero (k : ciclo) :
  (alimentar (map (λ lt, String.string_of_list_ascii lt.1) (tramas_ciclo fin f1 f fi k)) gestor_vacio).1
    = registro_tras f1 fi [k].
Proof.
  unfold tramas_ciclo. rewrite !map_app, !alimentar_app.
  rewrite (temp_lineas_nuevo gestor_vacio); [|done|apply sin_coma_bool; reflexivity|reflexivity].
  rewrite (temp_lineas_nuevo (mkGestor _ _)); [|done|apply sin_coma_bool; reflexivity|reflexivity].
  rewrite (pres_lineas_nuevo (mkGestor _ _)); [|done|apply sin_coma_bool; reflexivity|reflexivity].
  rewrite (pres_lineas_nuevo (mkGestor _ _)); [|done|apply sin_coma_bool; reflexivity|reflexivity].
  cbn [map fst]. rewrite fin_de_ciclo. reflexivity.
Qed.

Lemma ciclo_siguiente (pre : list ciclo) (k : ciclo) :
  (alimentar (map (λ lt, String.string_of_list_ascii lt.1) (tramas_ciclo fin f1 f fi k))
     (registro_tras f1 fi pre)).1
    = registro_tras f1 fi (pre ++ [k]).
Proof.
  unfold tramas_ciclo. rewrite !map_app, !alimentar_app.
  erewrite (temp_lineas (registro_tras _ _ _)); [|done|apply sin_coma_bool; reflexivity|reflexivity|reflexivity].
  erewrite (temp_lineas (mkGestor _ _)); [|done|apply sin_coma_bool; reflexivity|reflexivity|reflexivity].
  erewrite (pres_lineas (mkGestor _ _)); [|done|apply sin_coma_bool; reflexivity|reflexivity|reflexivity].
  erewrite (pres_lineas (mkGestor _ _)); [|done|apply sin_coma_bool; reflexivity|reflexivity|reflexivity].
  cbn [map fst]. rewrite fin_de_ciclo.
  unfold registro_tras. rewrite !map_app, length_app, Nat2Z.inj_add. reflexivity.
Qed.

Lemma trama_datos (pre v t : list ascii) :
  forallb (λ c, negb (es_fin_de_linea c) && negb (es_nul c)) pre = true → pre ≠ [] →
  (length pre ≤ 55)%nat → numeral v → t ≠ [] → Forall (λ c, es_fin_de_linea c = true) t →
  trama_valida (pre ++ v, t) ∧ (length (pre ++ v) ≤ 255)%nat.
Proof.
  intros Hp Hne Hl Hv Ht Htf. pose proof Hv as (_ & Hvl & _).
  split; [split; [|split; [|split]]|]; simpl.
  - by destruct pre.
  - apply Forall_app. split; [by apply cuerpo_bool|by apply cuerpo_numeral].
  - done.
  - done.
  - rewrite length_app. lia.
Qed.

Lemma trama_depuracion (pre v suf t : list ascii) :
  forallb (λ c, negb (es_fin_de_linea c) && negb (es_nul c)) pre = true → pre ≠ [] →
  forallb (λ c, negb (es_fin_de_linea c) && negb (es_nul c)) suf = true →
  (length pre + length suf ≤ 55)%nat → numeral v → t ≠ [] →
  Forall (λ c, es_fin_de_linea c = true) t →
  trama_valida (pre ++ v ++ suf, t) ∧ (length (pre ++ v ++ suf) ≤ 255)%nat.
Proof.
  intros Hp Hne Hs Hl Hv Ht Htf. pose proof Hv as (_ & Hvl & _).
  split; [split; [|split; [|split]]|]; simpl.
  - by destruct pre.
  - apply Forall_app. split; [by apply cuerpo_bool|].
    apply Forall_app. split; [by apply cuerpo_numeral|by apply cuerpo_bool].
  - done.
  - done.
  - rewrite !length_app. lia.
Qed.

Lemma trama_fija (l t : list ascii) :
  forallb (λ c, negb (es_fin_de_linea c) && negb (es_nul c)) l = true → l ≠ [] →
  (length l ≤ 255)%nat → t ≠ [] → Forall (λ c, es_fin_de_linea c = true) t →
  trama_valida (l, t) ∧ (length l ≤ 255)%nat.
Proof. intros Hp Hne Hl Ht Htf. split; [|done]. split; [done|]. by split; [apply cuerpo_bool|]. Qed.

Lemma fin_nl : "010"%char :: fin ≠ [] ∧ Forall (λ c, es_fin_de_linea c = true) ("010"%char :: fin).
Proof. split; [done|]. constructor; [reflexivity|]. apply fin_ok. Qed.

Lemma tramas_validas (ks : list ciclo) :
  Forall (λ lt, trama_valida lt ∧ (length lt.1 ≤ 255)%nat)
    (tramas_setup fin ++ concat (map (tramas_ciclo fin f1 f fi) ks)).
Proof.
  destruct fin_ok as [Hf Hff]. destruct fin_nl as [Hn Hnf].
  apply Forall_app. split.
  - repeat apply List.Forall_cons; try apply List.Forall_nil;
      (apply trama_fija; [reflexivity|discriminate|apply Nat.leb_le; reflexivity|done|done]).
  - apply Forall_concat, Forall_forall. intros tr Htr.
    apply list_elem_of_fmap in Htr as (k & -> & _).
    unfold tramas_ciclo, tramas_temp, tramas_pres.
    repeat (apply Forall_app; split); repeat apply List.Forall_cons; try apply List.Forall_nil.
    all: first
      [ apply (trama_datos (print "T," ++ print TEMP_SENSOR_1 ++ print ","))
      | apply (trama_datos (print "T," ++ print TEMP_SENSOR_2 ++ print ","))
      | apply (trama_datos (print "P," ++ print PRES_SENSOR_1 ++ print ","))
      | apply (trama_datos (print "P," ++ print PRES_SENSOR_2 ++ print ","))
      | apply (trama_depuracion (print "[ESP32] Enviado - Temperatura " ++ print TEMP_SENSOR_1 ++ print ": "))
      | apply (trama_depuracion (print "[ESP32] Enviado - Temperatura " ++ print TEMP_SENSOR_2 ++ print ": "))
      | apply (trama_depuracion (print "[ESP32] Enviado - Presión " ++ print PRES_SENSOR_1 ++ print ": "))
      | apply (trama_depuracion (print "[ESP32] Enviado - Presión " ++ print PRES_SENSOR_2 ++ print ": "))
      | apply trama_fija ].
    all: first [reflexivity | discriminate | apply Nat.leb_le; reflexivity | auto | done].
Qed.

Lemma ciclos_siguientes (pre ks : list ciclo) :
  (alimentar (map (λ lt, String.string_of_list_ascii lt.1) (concat (map (tramas_ciclo fin f1 f fi) ks)))
     (registro_tras f1 fi pre)).1
    = registro_tras f1 fi (pre ++ ks).
Proof.
  revert pre. induction ks as [|k ks IH]; intros pre; [by rewrite app_nil_r|].
  cbn [map concat]. rewrite map_app, alimentar_app, ciclo_siguiente, IH.
  by rewrite <-app_assoc.
Qed.

Lemma lineas_cortas (tr : list (list ascii * list ascii)) :
  Forall (λ lt, trama_valida lt ∧ (length lt.1 ≤ 255)%nat) tr →
  map (λ lt, String.string_of_list_ascii (take 255 lt.1)) tr
    = map (λ lt, String.string_of_list_ascii lt.1) tr.
Proof.
  induction 1 as [|lt tr [_ Hl] _ IH]; [done|]. simpl. rewrite IH, take_ge by done. done.
Qed.

(** X9. End to end: when the sketch runs [setup()] and then at least one
    [loop()], and [main] reads everything it writes through
    [leerLineaSerial] and feeds each line to [procesarLinea], nothing is
    left pending and the registry holds exactly the four sensors T-001,
    T-002, P-101, P-102 in this order, each with one reading per cycle,
    in order: the number the sketch printed, read back by [atof] or
    [atoi].  The debug and banner lines change nothing.  This assumes the
    line terminator is a non-empty run of terminator bytes and that the
    printed numbers are non-empty, at most 200 bytes, and free of commas,
    terminators and NUL bytes. *)
Theorem simulador_main (k : ciclo) (ks : list ciclo) :
  let '(pendiente, lineas) := flujo (map Some (salida_serial fin f1 f fi (k :: ks))) [] in
  pendiente = [] ∧ (alimentar lineas gestor_vacio).1 = registro_tras f1 fi (k :: ks).
Proof.
  pose proof (tramas_validas (k :: ks)) as Hv.
  rewrite salida_tramas, flujo_tramas.
  3:{ eapply Forall_impl; [exact Hv|]. by intros lt [? ?]. }
  2:{ constructor; [reflexivity|constructor]. }
  split; [done|].
  rewrite lineas_cortas by done. rewrite map_app, alimentar_app.
  replace (alimentar (map (λ lt, String.string_of_list_ascii lt.1) (tramas_setup fin)) gestor_vacio).1
    with gestor_vacio by reflexivity.
  cbn [map concat]. rewrite map_app, alimentar_app, ciclo_primero, ciclos_siguientes. done.
Qed.

End simulacion.

Lemma simulador_main_witness :
  (["013"%char; "010"%char] ≠ []
   ∧ Forall (λ c, es_fin_de_linea c = true) ["013"%char; "010"%char])
  ∧ (∀ q : Q, numeral (print "23.5"))
  ∧ (∀ z : Z, numeral (print "1013"))
  ∧ (let '(pendiente, lineas) :=
       flujo (map Some (salida_serial ["013"%char; "010"%char] (λ _, print "23.5") (λ _, print "23.5")
                          (λ _, print "1013") [mkCiclo 235 198 1013 990; mkCiclo 301 150 980 1041])) [] in
     pendiente = [] ∧ (alimentar lineas gestor_vacio).1
       = registro_tras (λ _, print "23.5") (λ _, print "1013")
           [mkCiclo 235 198 1013 990; mkCiclo 301 150 980 1041]).
Proof.
  assert (Hfin : ["013"%char; "010"%char] ≠ []
                 ∧ Forall (λ c, es_fin_de_linea c = true) ["013"%char; "010"%char]).
  { split; [discriminate|]. repeat apply List.Forall_cons; try apply List.Forall_nil; reflexivity. }
  assert (Hq : ∀ q : Q, numeral (print "23.5")).
  { intros _. split; [discriminate|]. split; [simpl; lia|].
    repeat apply List.Forall_cons; try apply List.Forall_nil; repeat split. }
  assert (Hz : ∀ z : Z, numeral (print "1013")).
  { intros _. split; [discriminate|]. split; [simpl; lia|].
    repeat apply List.Forall_cons; try apply List.Forall_nil; repeat split. }
  split; [exact Hfin|]. split; [exact Hq|]. split; [exact Hz|].
  exact (simulador_main ["013"%char; "010"%char] (λ _, print "23.5") (λ _, print "23.5")
           (λ _, print "1013") Hfin Hq Hq Hz (mkCiclo 235 198 1013 990) [mkCiclo 301 150 980 1041]).
Defined.

Module HeapFugas.
Import Heap HeapPruebas.

Section fugas.
Context {T : Type} `{Numero T}.
Local Open Scope nat_scope.
Implicit Types (m : gmap loc (Nodo T)) (ls : list loc).

Lemma eliminarMinimo_libera m L c ls :
  cabeza L = Some c → cadena m (Some c) ls →
  ∃ v m' L' ls', eliminarMinimo m L = Some (v, m', L')
    ∧ cadena m' (cabeza L') ls'
    ∧ (∀ x, x ∈ dom m' → x ∉ ls' → x ∈ dom m ∧ x ∉ ls).
Proof.
  intros Hcab Hc. unfold eliminarMinimo. rewrite Hcab.
  pose proof (cadena_NoDup _ _ _ Hc) as Hnd.
  assert (Hdom : ∀ x, x ∈ ls → is_Some (m !! x)) by (intros; by eapply cadena_lookup).
  inversion Hc as [|c' nc post Hlc Hnc Hcpost]; subst ls.
  destruct (escanear_spec m (c :: post) (combustible m) (c :: post) [] c None (Some c))
    as (mn & am & Hesc & HP); [done|done|done|left; split; [done|by exists post]| |].
  { pose proof (cadena_length _ _ _ Hc). unfold combustible. lia. }
  change (last (@nil loc)) with (@None loc) in Hesc. rewrite Hesc. simpl.
  assert (Hmn : mn ∈ c :: post).
  { destruct HP as [(_ & post' & Hl)|(pre' & b & post' & _ & Hl)]; rewrite Hl; set_solver. }
  destruct (Hdom mn Hmn) as [nmin Hmin]. rewrite Hmin. simpl.
  case_bool_decide as Hmc.
  - subst mn. assert (nmin = nc) as -> by congruence.
    exists (dato nc), (delete c m), (mkLista (siguiente nc) (tamano L - 1)), post.
    split; [done|]. simpl. split.
    + apply cadena_frame with m; [done|]. intros x Hx. apply lookup_delete_ne. by intros ->.
    + intros x Hx Hxp. rewrite dom_delete_L in Hx. set_solver.
  - destruct HP as [(_ & post' & Hl)|(pre & a & post' & -> & Hl)]; [congruence|].
    simpl. assert (Ha : a ∈ c :: post) by (rewrite Hl; set_solver).
    destruct (Hdom a Ha) as [na Hna]. rewrite Hna. simpl.
    rewrite Hl in Hnd. destruct (NoDup_medio _ _ _ _ Hnd) as (Hamn & Hapre & Hmnpre).
    set (m' := delete mn (<[a:=mkNodo (dato na) (siguiente nmin)]> m)).
    exists (dato nmin), m', (mkLista (Some c) (tamano L - 1)), (pre ++ a :: post').
    split; [done|]. simpl. split.
    + rewrite <-Hcab. apply cadena_quitar with m mn na nmin.
      * rewrite Hcab, <-Hl. done.
      * done.
      * done.
      * unfold m'. rewrite lookup_delete_ne by done. apply lookup_insert_eq.
      * intros x Hx. unfold m'. rewrite lookup_delete_ne by (intros ->; contradiction).
        apply lookup_insert_ne. intros ->. contradiction.
    + intros x Hx Hxl. unfold m' in Hx. rewrite dom_delete_L, dom_insert_L in Hx.
      rewrite Hl. split; [|set_solver].
      apply elem_of_difference in Hx as [Hx Hxmn]. apply elem_of_union in Hx as [Hx|Hx]; [|done].
      apply elem_of_singleton in Hx as ->. set_solver.
Qed.

(** The objects other than [o] keep their chains; the nodes outside the
    new chain [ls'] of [o] were allocated before and were not [o]'s. *)
Lemma sf_objeto (w w' : Mundo T) o L' ls' lsold :
  sin_fugas w →
  (∀ L, objetos w !! o = Some L → cadena (memoria w) (cabeza L) lsold) →
  (∀ o2 L2 ls2, o2 ≠ o → objetos w !! o2 = Some L2 → cadena (memoria w) (cabeza L2) ls2 →
      objetos w' !! o2 = Some L2 ∧ ∀ x, x ∈ ls2 → memoria w' !! x = memoria w !! x) →
  (ls' ≠ [] → objetos w' !! o = Some L' ∧ cadena (memoria w') (cabeza L') ls') →
  (∀ x, x ∈ dom (memoria w') → x ∉ ls' → x ∈ dom (memoria w) ∧ x ∉ lsold) →
  sin_fugas w'.
Proof.
  intros Hsf Hold Hfr Hnew Hdom x Hx.
  destruct (decide (x ∈ ls')) as [Hxn|Hxn].
  - assert (Hne : ls' ≠ []) by (intros ->; set_solver).
    destruct (Hnew Hne) as [HL' Hc']. by exists o, L', ls'.
  - destruct (Hdom x Hx Hxn) as [Hxd Hxo].
    destruct (Hsf x Hxd) as (o2 & L2 & ls2 & HL2 & Hc2 & Hx2).
    destruct (decide (o2 = o)) as [->|Ho2].
    + rewrite (cadena_det _ _ _ _ Hc2 (Hold L2 HL2)) in Hx2. contradiction.
    + destruct (Hfr o2 L2 ls2 Ho2 HL2 Hc2) as [HL2' Hm2].
      exists o2, L2, ls2. split; [done|]. split; [|done].
      by apply cadena_frame with (memoria w).
Qed.

Lemma sf_paso (w w' : Mundo T) op :
  bien_formado w → sin_fugas w → paso w op = Some w' → sin_fugas w'.
Proof.
  intros Hbf Hsf Hp. destruct (paso_spec w w' op Hbf Hp) as [_ Hfr].
  destruct w as [m objs].
  destruct op as [o|o v|o|o src|o src|o]; cbn [paso memoria objetos objetivo] in Hp, Hfr.
  - (* Construir *)
    destruct (objs !! o) eqn:Eo; [discriminate|]. injection Hp as <-.
    apply (sf_objeto _ _ o (mkLista None 0) [] [] Hsf); [|done|done|set_solver].
    intros L HL. simpl in HL. congruence.
  - (* Insertar *)
    destruct (objs !! o) as [L|] eqn:Eo; cbn [mbind option_bind] in Hp; [|discriminate].
    destruct (bf_cadena (mkMundo m objs) o L Hbf Eo) as (ls & Hc & Ht). simpl in Hc.
    destruct (insertarAlFinal_spec m L v ls Hc) as (l & m' & L' & Hins & Htam & Hl & Hc' & Hm & _).
    rewrite Hins in Hp. cbn [mbind option_bind] in Hp. injection Hp as <-.
    apply (sf_objeto _ _ o L' (ls ++ [l]) ls Hsf); [|done| |].
    + intros L0 HL0. simpl in HL0. rewrite Eo in HL0. by injection HL0 as <-.
    + intros _. simpl. split; [apply lookup_insert_eq|done].
    + intros x Hx Hxn. simpl in *. apply elem_of_dom in Hx.
      rewrite Hm in Hx by set_solver. split; [by apply elem_of_dom|set_solver].
  - (* EliminarMin *)
    destruct (objs !! o) as [L|] eqn:Eo; cbn [mbind option_bind] in Hp; [|discriminate].
    destruct (bf_cadena (mkMundo m objs) o L Hbf Eo) as (ls & Hc & Ht). simpl in Hc.
    assert (Hold : ∀ L0, objetos (mkMundo m objs) !! o = Some L0 →
                     cadena (memoria (mkMundo m objs)) (cabeza L0) ls).
    { intros L0 HL0. simpl in HL0. rewrite Eo in HL0. by injection HL0 as <-. }
    destruct (cabeza L) as [c|] eqn:Ecab.
    + destruct (eliminarMinimo_libera m L c ls Ecab Hc) as (v & m' & L' & ls' & Hel & Hc' & Hd).
      rewrite Hel in Hp. cbn [mbind option_bind] in Hp. injection Hp as <-.
      apply (sf_objeto _ _ o L' ls' ls Hsf Hold); [done| |].
      * intros _. simpl. split; [apply lookup_insert_eq|done].
      * intros x Hx Hxn. simpl in *. exact (Hd x Hx Hxn).
    + unfold eliminarMinimo in Hp. rewrite Ecab in Hp. cbn [mbind option_bind] in Hp.
      injection Hp as <-.
      apply (sf_objeto _ _ o L ls ls Hsf Hold); [done| |].
      * intros _. simpl. split; [apply lookup_insert_eq|by rewrite Ecab].
      * intros x Hx Hxn. done.
  - (* CopiarDe *)
    destruct (objs !! o) eqn:Eo; [discriminate|].
    destruct (objs !! src) as [Ls|] eqn:Es; cbn [mbind option_bind] in Hp; [|discriminate].
    destruct (bf_cadena (mkMundo m objs) src Ls Hbf Es) as (lss & Hcs & Hts). simpl in Hcs.
    destruct (copia_resultado m Ls lss Hcs) as (m' & L' & ln & Hcop & Hc' & Ht' & _ & Hfresh & Hm & Hlen).
    unfold copiar in Hp. rewrite Hcop in Hp. cbn [mbind option_bind] in Hp. injection Hp as <-.
    apply (sf_objeto _ _ o L' ln [] Hsf); [|done| |].
    + intros L0 HL0. simpl in HL0. congruence.
    + intros _. simpl. split; [apply lookup_insert_eq|done].
    + intros x Hx Hxn. simpl in *. apply elem_of_dom in Hx. rewrite Hm in Hx by done.
      split; [by apply elem_of_dom|set_solver].
  - (* Asignar *)
    destruct (objs !! o) as [Ld|] eqn:Eo; cbn [mbind option_bind] in Hp; [|discriminate].
    destruct (objs !! src) as [Ls|] eqn:Es; cbn [mbind option_bind] in Hp; [|discriminate].
    case_bool_decide as Hos; [by injection Hp as <-|].
    destruct (bf_cadena (mkMundo m objs) o Ld Hbf Eo) as (lsd & Hcd & Htd). simpl in Hcd.
    destruct (bf_cadena (mkMundo m objs) src Ls Hbf Es) as (lss & Hcs & Hts). simpl in Hcs.
    unfold asignar_liberar in Hp.
    destruct (liberar_cadena (combustible m) m (cabeza Ld) lsd Hcd) as (m1 & Hlib & Hm1).
    { pose proof (cadena_length _ _ _ Hcd). unfold combustible. lia. }
    rewrite Hlib in Hp. cbn [mbind option_bind] in Hp.
    assert (Hdis : lss ## lsd).
    { destruct Hbf as [_ Hd]. exact (Hd src o Ls Ld lss lsd (not_eq_sym Hos) Es Eo Hcs Hcd). }
    assert (Hcs1 : cadena m1 (cabeza Ls) lss).
    { apply cadena_frame with m; [done|]. intros x Hx. rewrite Hm1, decide_False by set_solver.
      done. }
    destruct (copia_resultado m1 Ls lss Hcs1) as (m2 & L' & ln & Hcop & Hc' & Ht' & _ & Hfresh & Hm2 & Hlen).
    rewrite Hcop in Hp. cbn [mbind option_bind] in Hp. injection Hp as <-.
    apply (sf_objeto _ _ o L' ln lsd Hsf); [|done| |].
    + intros L0 HL0. simpl in HL0. rewrite Eo in HL0. by injection HL0 as <-.
    + intros _. simpl. split; [apply lookup_insert_eq|done].
    + intros x Hx Hxn. simpl in *. apply elem_of_dom in Hx. rewrite Hm2, Hm1 in Hx by done.
      destruct (decide (x ∈ lsd)) as [Hxl|Hxl]; [by destruct Hx|].
      split; [by apply elem_of_dom|done].
  - (* Destruir *)
    destruct (objs !! o) as [L|] eqn:Eo; cbn [mbind option_bind] in Hp; [|discriminate].
    destruct (bf_cadena (mkMundo m objs) o L Hbf Eo) as (ls & Hc & Ht). simpl in Hc.
    destruct (liberar_cadena (combustible m) m (cabeza L) ls Hc) as (m' & Hlib & Hm').
    { pose proof (cadena_length _ _ _ Hc). unfold combustible. lia. }
    rewrite Hlib in Hp. cbn [mbind option_bind] in Hp. injection Hp as <-.
    apply (sf_objeto _ _ o L [] ls Hsf); [|done|done|].
    + intros L0 HL0. simpl in HL0. rewrite Eo in HL0. by injection HL0 as <-.
    + intros x Hx _. simpl in *. apply elem_of_dom in Hx. rewrite Hm' in Hx.
      destruct (decide (x ∈ ls)) as [Hxl|Hxl]; [by destruct Hx|].
      split; [by apply elem_of_dom|done].
Qed.

Lemma alcanzable_sf (w : Mundo T) : alcanzable w → sin_fugas w.
Proof.
  induction 1 as [|w op w' Hw IH Hp].
  - intros x Hx. simpl in Hx. set_solver.
  - exact (sf_paso w w' op (alcanzable_bf w Hw) IH Hp).
Qed.

(** X10. No leak and no dangling chain: in every state the program
    reaches through the list operations (construction, [insertarAlFinal],
    [eliminarMinimo], copy construction, assignment, destruction), a node
    is allocated exactly when it lies on the chain of a live list object.
    [eliminarMinimo] frees the node it unlinks, [operator=] frees the old
    nodes of its target, and the destructor frees its whole chain. *)
Theorem memoria_de_objetos (w : Mundo T) (x : loc) :
  alcanzable w →
  x ∈ dom (memoria w) ↔
    ∃ o L ls, objetos w !! o = Some L ∧ cadena (memoria w) (cabeza L) ls ∧ x ∈ ls.
Proof.
  intros Hw. split; [by apply alcanzable_sf|].
  intros (o & L & ls & _ & Hc & Hx). by eapply cadena_dom.
Qed.

(** X11. Once every list object of a reachable state has been destroyed,
    no node is left allocated. *)
Theorem sin_objetos_sin_memoria (w : Mundo T) :
  alcanzable w → objetos w = ∅ → memoria w = ∅.
Proof.
  intros Hw Ho. apply map_eq. intros x. rewrite lookup_empty.
  destruct (memoria w !! x) eqn:E; [|done]. exfalso.
  destruct (alcanzable_sf w Hw x) as (o & L & ls & HL & _); [by apply elem_of_dom|].
  rewrite Ho, lookup_empty in HL. discriminate.
Qed.

End fugas.

Lemma memoria_de_objetos_witness :
  ∃ w : Mundo Z,
    pasos (mkMundo ∅ ∅) [Construir 0; Insertar 0 5; Insertar 0 3; CopiarDe 1 0; EliminarMin 0]
      = Some w
    ∧ alcanzable w
    ∧ (1%positive ∈ dom (memoria w) ↔
         ∃ o L ls, objetos w !! o = Some L ∧ cadena (memoria w) (cabeza L) ls ∧ 1%positive ∈ ls).
Proof.
  pose (ops := [Construir 0; Insertar 0 5; Insertar 0 3; CopiarDe 1 0; EliminarMin (T:=Z) 0]).
  pose (w := default (mkMundo ∅ ∅) (pasos (mkMundo ∅ ∅) ops)).
  assert (E : pasos (mkMundo ∅ ∅) ops = Some w) by (vm_compute; reflexivity).
  assert (Hw : alcanzable w) by exact (pasos_alcanzable _ _ ops alc_inicio E).
  exists w. split; [exact E|]. split; [exact Hw|].
  exact (memoria_de_objetos w 1%positive Hw).
Defined.

Lemma sin_objetos_sin_memoria_witness :
  ∃ w : Mundo Z,
    pasos (mkMundo ∅ ∅)
      [Construir 0; Insertar 0 5; Insertar 0 3; CopiarDe 1 0; Construir 2; Asignar 2 1;
       EliminarMin 0; Destruir 0; Destruir 1; Destruir 2] = Some w
    ∧ alcanzable w ∧ objetos w = ∅ ∧ memoria w = ∅.
Proof.
  pose (ops := [Construir 0; Insertar 0 5; Insertar 0 3; CopiarDe 1 0; Construir 2; Asignar 2 1;
                EliminarMin 0; Destruir 0; Destruir 1; Destruir (T:=Z) 2]).
  pose (w := default (mkMundo ∅ ∅) (pasos (mkMundo ∅ ∅) ops)).
  assert (E : pasos (mkMundo ∅ ∅) ops = Some w) by (vm_compute; reflexivity).
  assert (Hw : alcanzable w) by exact (pasos_alcanzable _ _ ops alc_inicio E).
  assert (Ho : objetos w = ∅) by (vm_compute; reflexivity).
  exists w. split; [exact E|]. split; [exact Hw|]. split; [exact Ho|].
  exact (sin_objetos_sin_memoria w Hw Ho).
Defined.
End HeapFugas.
